(** * Grid2D and Grid3D (src/ts/utils/grid.ts): a shallow embedding

    Numbers.  Every TypeScript [number] that is a coordinate, a dimension or
    an array index is an integer, modelled as [Z]; the development covers the
    range in which JavaScript's doubles are exact on integers.  [Math.max],
    [Math.min] and [Math.abs] are [Z.max], [Z.min] and [Z.abs];
    [Math.floor(a / b)] is [a / b] on [Z] (floor division) for [b <> 0].

    Values.  A cell of the generic grid holds a [T] or [undefined]; a numeric
    cell holds an integer-valued double or [NaN] (what [++] makes of
    [undefined]), and [++] on it rounds as double arithmetic does.

    State.  The methods mutate [this]; here each mutator returns the grid
    after the call.  A predicate passed to a search is a pure, total
    function to [bool]. *)

From stdpp Require Import base list list_numbers gmap.
From Stdlib Require Import ZArith Lia.

Local Open Scope Z_scope.

(** ** JavaScript values and arrays *)

Inductive jsval (T : Type) : Type :=
  | undefined : jsval T
  | val (t : T) : jsval T.
Arguments undefined {T}.
Arguments val {T} t.

#[global] Instance jsval_eq_dec {T : Type} `{EqDecision T} : EqDecision (jsval T).
Proof. solve_decision. Defined.

(** A slot of an array is a hole (never written) or holds a value. *)
Inductive slot (T : Type) : Type :=
  | hole : slot T
  | elem (v : jsval T) : slot T.
Arguments hole {T}.
Arguments elem {T} v.

(** What reading a slot yields: a hole reads as [undefined]. *)
Definition slot_val {T} (s : slot T) : jsval T :=
  match s with
  | hole => undefined
  | elem v => v
  end.

(** An array: its indexed elements [0 .. length-1], and the properties keyed
    by negative integers, which [a[i] = v] creates for [i < 0] and which
    neither [length] nor the iteration methods see. *)
Record jsarray (T : Type) : Type := mkArray {
  elems : list (slot T);
  props : gmap Z (jsval T)
}.
Arguments mkArray {T} elems props.
Arguments elems {T} _.
Arguments props {T} _.

Module Arr.
Section Arr.
Context {T : Type}.

Definition length (a : jsarray T) : Z := Z.of_nat (List.length (elems a)).

(** [new Array(n).fill(v)], for [n >= 0] (a negative length is a
    RangeError in JavaScript; no grid below is built with one). *)
Definition new_fill (n : Z) (v : jsval T) : jsarray T :=
  mkArray (replicate (Z.to_nat n) (elem v)) ∅.

(** [a[i]] *)
Definition get (a : jsarray T) (i : Z) : jsval T :=
  if i <? 0 then
    match props a !! i with
    | Some v => v
    | None => undefined
    end
  else
    match elems a !! Z.to_nat i with
    | Some s => slot_val s
    | None => undefined
    end.

(** [a[i] = v]: in range it overwrites, past the end it extends the array
    with holes, below zero it sets a property. *)
Definition set (a : jsarray T) (i : Z) (v : jsval T) : jsarray T :=
  if i <? 0 then
    mkArray (elems a) (<[i := v]> (props a))
  else if i <? length a then
    mkArray (<[Z.to_nat i := elem v]> (elems a)) (props a)
  else
    mkArray (elems a ++ replicate (Z.to_nat (i - length a)) hole ++ [elem v])
            (props a).

(** [a.filter(p)]: holes are skipped. *)
Fixpoint filter_slots (p : jsval T → bool) (l : list (slot T)) : list (jsval T) :=
  match l with
  | [] => []
  | hole :: l' => filter_slots p l'
  | elem v :: l' => if p v then v :: filter_slots p l' else filter_slots p l'
  end.

Definition filter (p : jsval T → bool) (a : jsarray T) : list (jsval T) :=
  filter_slots p (elems a).

(** Whether a slot is one that [a.filter(p)] keeps: it holds a value, and
    the value satisfies [p]. *)
Definition kept (p : jsval T → bool) (s : slot T) : bool :=
  match s with
  | hole => false
  | elem v => p v
  end.

(** [a.findIndex(p)]: holes are visited as [undefined]; [-1] when nothing
    matches. *)
Fixpoint findIndex_from (p : jsval T → bool) (l : list (slot T)) (i : Z) : Z :=
  match l with
  | [] => -1
  | s :: l' => if p (slot_val s) then i else findIndex_from p l' (i + 1)
  end.

Definition findIndex (p : jsval T → bool) (a : jsarray T) : Z :=
  findIndex_from p (elems a) 0.

End Arr.
End Arr.

(** Numbers held in cells: an integer, or [NaN]. *)
Inductive number : Type :=
  | num (z : Z)
  | NaN.

(** 2^53: below it in magnitude every integer is a double. *)
Definition two53 : Z := 9007199254740992.

(** The double nearest to the integer [n], ties to the even significand.
    From 2^53 on a double is a 53-bit integer times a power of two. *)
Definition round_double (n : Z) : Z :=
  let a := Z.abs n in
  if a <? two53 then n
  else
    let ulp := 2 ^ (Z.log2 a - 52) in
    let q := a / ulp in
    let r := a mod ulp in
    let q' := if 2 * r <? ulp then q
              else if 2 * r >? ulp then q + 1
              else if Z.even q then q else q + 1 in
    Z.sgn n * (q' * ulp).

(** The value [v++] stores back: the double sum of [v] and 1; [undefined]
    (and [NaN]) become [NaN]. *)
Definition plus_plus (v : jsval number) : jsval number :=
  match v with
  | val (num z) => val (num (round_double (z + 1)))
  | _ => val NaN
  end.

(** The comma operator [a, b] evaluates both operands and yields the last. *)
Definition comma {A B : Type} (a : A) (b : B) : B := b.

(** [d < n / 2], the division being that of the reals. *)
Definition lt_half (d n : Z) : bool := 2 * d <? n.

(** Modelled from the spec: [range] of ./range, which is not among the
    sources.  [horizontals] maps over [range(0, height - 1)] and has one entry
    per row y in [0,height), in order: [range a b] is the ascending list
    [a, a+1, ..., b], both ends included (empty when [b < a], a case no
    statement below relies on). *)
Definition range (a b : Z) : list Z := seqZ a (b - a + 1).

Definition Point : Type := (Z * Z)%type.

(** ** Grid2D *)

Module Grid2D.

Record t (T : Type) : Type := mk {
  height : Z;
  width : Z;
  size : Z;
  offset : Z;
  data : jsarray T
}.
Arguments mk {T} height width size offset data.
Arguments height {T} _.
Arguments width {T} _.
Arguments size {T} _.
Arguments offset {T} _.
Arguments data {T} _.

Section Generic.
Context {T : Type}.

Definition constructor (height width : Z) (fillValue : jsval T) : t T :=
  let offset := Z.max height width in
  let size := offset * offset in
  mk height width size offset (Arr.new_fill size fillValue).

Definition get (g : t T) (x y : Z) : jsval T :=
  if (x <? 0) || (x >? width g - 1) then undefined
  else if (y <? 0) || (y >? height g - 1) then undefined
  else Arr.get (data g) (x + y * offset g).

Definition set (g : t T) (x y : Z) (value : jsval T) : t T :=
  if (x <? 0) || (x >? width g - 1) then g
  else if (y <? 0) || (y >? height g - 1) then g
  else mk (height g) (width g) (size g) (offset g)
          (Arr.set (data g) (x + y * offset g) value).

(** [input[y][x]] *)
Definition input_at (input : list (list T)) (x y : Z) : jsval T :=
  match input !! Z.to_nat y with
  | Some row =>
      match row !! Z.to_nat x with
      | Some v => val v
      | None => undefined
      end
  | None => undefined
  end.

(** [parse]: [None] stands for the TypeError that [input[0].length] raises on
    an empty input. *)
Definition parse (input : list (list T)) : option (t T) :=
  match input with
  | [] => None
  | row0 :: _ =>
      let yDim := Z.of_nat (List.length input) in
      let xDim := Z.of_nat (List.length row0) in
      let grid := constructor yDim xDim undefined in
      Some (foldl
              (fun grid y =>
                 foldl (fun grid x => set grid x y (input_at input x y))
                       grid (seqZ 0 xDim))
              grid (seqZ 0 yDim))
  end.

Definition filter (g : t T) (predicate : jsval T → bool) : list (jsval T) :=
  Arr.filter predicate (data g).

Definition count (g : t T) (predicate : jsval T → bool) : Z :=
  Z.of_nat (List.length (filter g predicate)).

(** [find] and [findAll] divide by the stride: the model is exact for
    [offset g <> 0] (with a zero stride JavaScript computes with Infinity
    and NaN). *)
Definition find (g : t T) (predicate : jsval T → bool) : Point :=
  let idx := Arr.findIndex predicate (data g) in
  let y := idx / offset g in
  let x := idx - y * offset g in
  (x, y).

Definition findAll (g : t T) (predicate : jsval T → bool) : list Point :=
  foldl
    (fun res idx =>
       if predicate (Arr.get (data g) idx) then
         let y := idx / offset g in
         let x := idx - y * offset g in
         res ++ [(x, y)]
       else res)
    [] (seqZ 0 (size g)).

Definition adjacent (g : t T) (x y : Z) : list Point :=
  let res := [] in
  let res := if x >? 0 then res ++ [(x - 1, y)] else res in
  let res := if x <? width g - 1 then res ++ [(x + 1, y)] else res in
  let res := if y >? 0 then res ++ [(x, y - 1)] else res in
  let res := if y <? height g - 1 then res ++ [(x, y + 1)] else res in
  res.

Definition horizontals (g : t T) : list (list (jsval T)) :=
  (fun y => (fun x => get g x y) <$> range 0 (width g - 1))
    <$> range 0 (height g - 1).

Definition verticals (g : t T) : list (list (jsval T)) :=
  (fun x => (fun y => get g x y) <$> range 0 (height g - 1))
    <$> range 0 (width g - 1).

Definition diagonals (g : t T) : list (list (jsval T)) :=
  let numDiags := width g + height g - 2 in
  let maxDiagLength := Z.min (width g) (height g) in
  (fun diagIdx =>
     let diagLength :=
       Z.min maxDiagLength
             (if lt_half diagIdx numDiags
              then diagIdx + 1
              else numDiags - diagIdx + 1) in
     let startX := if diagIdx <? height g then 0 else diagIdx - height g + 1 in
     let startY := if diagIdx <? height g then height g - diagIdx - 1 else 0 in
     (fun idx => get g (startX + idx) (startY + idx))
       <$> range 0 (diagLength - 1))
    <$> range 0 numDiags.

Definition antiDiagonals (g : t T) : list (list (jsval T)) :=
  let numDiags := width g + height g - 2 in
  let maxDiagLength := Z.min (width g) (height g) in
  (fun diagIdx =>
     let diagLength :=
       Z.min maxDiagLength
             (if lt_half diagIdx numDiags
              then diagIdx + 1
              else numDiags - diagIdx + 1) in
     let startX := if diagIdx <? width g then diagIdx else width g - 1 in
     let startY := if diagIdx <? width g then 0 else diagIdx - height g + 1 in
     (fun idx => get g (startX - idx) (startY + idx))
       <$> range 0 (diagLength - 1))
    <$> range 0 numDiags.

(** [findValue], for an element type on which [===] is structural equality
    (strings, booleans, numbers other than NaN). *)
Definition findValue `{EqDecision T} (g : t T) (value : jsval T) : Point :=
  find g (fun v => bool_decide (v = value)).

(** The layout that the constructor establishes and every method keeps:
    the stride is the larger dimension and the store holds its square. *)
Definition layout (g : t T) : Prop :=
  offset g = Z.max (height g) (width g) ∧
  size g = offset g * offset g ∧
  size g ≤ Arr.length (data g).

(** The coordinates of the [width] by [height] rectangle. *)
Definition in_rect (g : t T) (p : Point) : Prop :=
  0 ≤ p.1 < width g ∧ 0 ≤ p.2 < height g.

(** Reading the grid through its searches never leaves the rectangle: every
    value [filter] returns is the value of an in-range cell, and every
    coordinate [findAll] returns is in range. *)
Definition only_rect_observable (g : t T) : Prop :=
  ∀ predicate : jsval T → bool,
    (∀ v, v ∈ filter g predicate → ∃ x y, in_rect g (x, y) ∧ get g x y = v) ∧
    (∀ pt, pt ∈ findAll g predicate → in_rect g pt).

(** The coordinates that [diagonals] and [antiDiagonals] pass to [get],
    diagonal by diagonal. *)
Definition diagonalPoints (g : t T) : list (list Point) :=
  let numDiags := width g + height g - 2 in
  let maxDiagLength := Z.min (width g) (height g) in
  (fun diagIdx =>
     let diagLength :=
       Z.min maxDiagLength
             (if lt_half diagIdx numDiags
              then diagIdx + 1
              else numDiags - diagIdx + 1) in
     let startX := if diagIdx <? height g then 0 else diagIdx - height g + 1 in
     let startY := if diagIdx <? height g then height g - diagIdx - 1 else 0 in
     (fun idx => (startX + idx, startY + idx)) <$> range 0 (diagLength - 1))
    <$> range 0 numDiags.

Definition antiDiagonalPoints (g : t T) : list (list Point) :=
  let numDiags := width g + height g - 2 in
  let maxDiagLength := Z.min (width g) (height g) in
  (fun diagIdx =>
     let diagLength :=
       Z.min maxDiagLength
             (if lt_half diagIdx numDiags
              then diagIdx + 1
              else numDiags - diagIdx + 1) in
     let startX := if diagIdx <? width g then diagIdx else width g - 1 in
     let startY := if diagIdx <? width g then 0 else diagIdx - height g + 1 in
     (fun idx => (startX - idx, startY + idx)) <$> range 0 (diagLength - 1))
    <$> range 0 numDiags.

(** The start of anti-diagonal [d], as [antiDiagonals] computes it. *)
Definition antiDiagStart (g : t T) (d : Z) : Point :=
  if d <? width g then (d, 0) else (width g - 1, d - height g + 1).

(** Every cell of the rectangle, row by row. *)
Definition cells (g : t T) : list Point :=
  range 0 (height g - 1) ≫= fun y => (fun x => (x, y)) <$> range 0 (width g - 1).

(** The length and the start of diagonal [d], as the specification words
    them; [diagonals] is compared with these below. *)
Definition spec_diagLength (g : t T) (d : Z) : Z :=
  let numDiags := width g + height g - 2 in
  let maxLen := Z.min (width g) (height g) in
  Z.min maxLen (if lt_half d numDiags then d + 1 else numDiags - d + 1).

Definition spec_diagStart (g : t T) (d : Z) : Point :=
  if d <? height g then (0, height g - d - 1) else (d - height g + 1, 0).

#[global] Instance in_rect_dec (g : t T) (p : Point) : Decision (in_rect g p).
Proof. unfold in_rect. apply _. Defined.

(** The four neighbours of (x, y): left, right, up, down. *)
Definition neighbours (x y : Z) : list Point :=
  [(x - 1, y); (x + 1, y); (x, y - 1); (x, y + 1)].

Definition is_interior (g : t T) (x y : Z) : Prop :=
  0 < x < width g - 1 ∧ 0 < y < height g - 1.

Definition is_corner (g : t T) (x y : Z) : Prop :=
  (x = 0 ∨ x = width g - 1) ∧ (y = 0 ∨ y = height g - 1).

End Generic.

(** The operations available only when [T] extends [number]. *)

Definition increment (g : t number) (x y : Z) : t number :=
  let i := x + y * offset g in
  mk (height g) (width g) (size g) (offset g)
     (Arr.set (data g) i (plus_plus (Arr.get (data g) i))).

Definition slope (start end_ : Z) : Z :=
  if start =? end_ then 0 else if start >? end_ then -1 else 1.

Definition incrementLine (g : t number) (x1 y1 x2 y2 : Z) : t number :=
  let dx := slope x1 x2 in
  let dy := slope y1 y2 in
  let length := Z.max (Z.abs (x1 - x2)) (Z.abs (y1 - y2)) in
  foldl (fun g i => increment g (x1 + i * dx) (y1 + i * dy))
        g (seqZ 0 (length + 1)).

(** The coordinates that [incrementLine] passes to [increment], in order. *)
Definition linePoints (x1 y1 x2 y2 : Z) : list Point :=
  let dx := slope x1 x2 in
  let dy := slope y1 y2 in
  let length := Z.max (Z.abs (x1 - x2)) (Z.abs (y1 - y2)) in
  (fun i => (x1 + i * dx, y1 + i * dy)) <$> seqZ 0 (length + 1).

End Grid2D.

(** ** Grid3D *)

Module Grid3D.

Record t : Type := mk {
  height : Z;
  width : Z;
  depth : Z;
  size : Z;
  data : jsarray number;
  yMod : Z;
  zMod : Z
}.

Definition constructor (height width depth : Z) (fillValue : number) : t :=
  let size := height * width * depth in
  mk height width depth size (Arr.new_fill size (val fillValue))
     height (height * width).

Definition with_data (g : t) (d : jsarray number) : t :=
  mk (height g) (width g) (depth g) (size g) d (yMod g) (zMod g).

Definition get (g : t) (x y z : Z) : jsval number :=
  Arr.get (data g) (x + y * yMod g + z * zMod g).

Definition set (g : t) (x y z : Z) (value : jsval number) : t :=
  with_data g (Arr.set (data g) (x + y * yMod g + z * zMod g) value).

Definition increment (g : t) (x y z : Z) : t :=
  let i := comma (x + y * yMod g) (z * zMod g) in
  with_data g (Arr.set (data g) i (plus_plus (Arr.get (data g) i))).

Definition setCube (g : t) (x1 y1 z1 x2 y2 z2 : Z) (value : jsval number) : t :=
  foldl
    (fun g x =>
       foldl
         (fun g y =>
            foldl (fun g z => set g x y z value) g (seqZ z1 (z2 - z1 + 1)))
         g (seqZ y1 (y2 - y1 + 1)))
    g (seqZ x1 (x2 - x1 + 1)).

Definition filter (g : t) (predicate : jsval number → bool) : list (jsval number) :=
  Arr.filter predicate (data g).

Definition count (g : t) (predicate : jsval number → bool) : Z :=
  Z.of_nat (List.length (filter g predicate)).

(** What the constructor fixes and no method changes. *)
Definition layout (g : t) : Prop :=
  yMod g = height g ∧ zMod g = height g * width g.

(** The linear address of (x, y, z). *)
Definition address (g : t) (x y z : Z) : Z :=
  x + y * height g + z * (height g * width g).

Definition in_box (g : t) (x y z : Z) : Prop :=
  0 ≤ x < width g ∧ 0 ≤ y < height g ∧ 0 ≤ z < depth g.

(** The coordinates that [setCube] passes to [set], in order. *)
Definition cubePoints (xs ys zs : list Z) : list (Z * Z * Z) :=
  xs ≫= fun x => ys ≫= fun y => (fun z => (x, y, z)) <$> zs.

End Grid3D.

(** ** Example grids *)

Definition is_zero (v : jsval Z) : bool :=
  match v with
  | val 0 => true
  | _ => false
  end.

(** A grid of height 1 and width 2, filled with 0, whose two cells are then
    set to 1: the two padding cells of its 2 by 2 store still hold 0. *)
Definition padded_grid : Grid2D.t Z :=
  Grid2D.set (Grid2D.set (Grid2D.constructor 1 2 (val 0)) 0 0 (val 1)) 1 0 (val 1).

Definition zero : jsval number := val (num 0).
Definition one : jsval number := val (num 1).

(** [Grid2D.parse([[1,2],[3,4],[5,6]])]: height 3, width 2. *)
Definition parsed_3x2 : option (Grid2D.t Z) :=
  Grid2D.parse [[1; 2]; [3; 4]; [5; 6]].

Definition holds_zero (v : jsval number) : bool :=
  match v with
  | val (num 0) => true
  | _ => false
  end.

(** * Properties *)

(** ** Arrays: reading after writing *)

Section ArrFacts.
Context {T : Type}.
Implicit Types (a : jsarray T) (v : jsval T) (i j : Z).

Lemma Arr_get_set_eq a i v : Arr.get (Arr.set a i v) i = v.
Proof.
  unfold Arr.get, Arr.set, Arr.length.
  destruct (i <? 0) eqn:Hneg; simpl.
  - by rewrite lookup_insert_eq.
  - apply Z.ltb_ge in Hneg.
    destruct (i <? Z.of_nat (length (elems a))) eqn:Hin; simpl.
    + apply Z.ltb_lt in Hin. rewrite list_lookup_insert_eq by lia. done.
    + apply Z.ltb_ge in Hin.
      rewrite lookup_app_r by lia.
      rewrite lookup_app_r by (rewrite length_replicate; lia).
      rewrite length_replicate.
      replace (Z.to_nat i - length (elems a) - Z.to_nat (i - Z.of_nat (length (elems a))))%nat
        with 0%nat by lia.
      done.
Qed.

Lemma lookup_holes_undefined (l : list (slot T)) (k n : nat) w :
  (n ≠ length l + k)%nat →
  (l ++ replicate k hole ++ [elem w]) !! n = None ∨
  (l ++ replicate k hole ++ [elem w]) !! n = Some hole ∨
  ((n < length l)%nat ∧ (l ++ replicate k hole ++ [elem w]) !! n = l !! n).
Proof.
  intros Hn.
  destruct (decide (n < length l)%nat) as [Hlt|Hge].
  - right; right. split; [done|]. by rewrite lookup_app_l.
  - rewrite lookup_app_r by lia.
    destruct (decide (n - length l < k)%nat) as [Hk|Hk].
    + right; left. rewrite lookup_app_l by (rewrite length_replicate; lia).
      by apply lookup_replicate_2.
    + left. apply lookup_ge_None.
      rewrite length_app, length_replicate. simpl. lia.
Qed.

Lemma Arr_get_set_ne a i j v : i ≠ j → Arr.get (Arr.set a i v) j = Arr.get a j.
Proof.
  intros Hij. unfold Arr.get, Arr.set, Arr.length.
  destruct (i <? 0) eqn:Hi; simpl.
  - destruct (j <? 0); [|done]. by rewrite lookup_insert_ne.
  - apply Z.ltb_ge in Hi.
    destruct (i <? Z.of_nat (length (elems a))) eqn:Hin; simpl;
      destruct (j <? 0) eqn:Hj; try done; apply Z.ltb_ge in Hj.
    + rewrite list_lookup_insert_ne by lia. done.
    + apply Z.ltb_ge in Hin.
      destruct (lookup_holes_undefined (elems a)
                  (Z.to_nat (i - Z.of_nat (length (elems a)))) (Z.to_nat j) v)
        as [H|[H|[Hlt H]]]; [lia| | |]; rewrite H; try done.
      * rewrite (proj2 (lookup_ge_None (elems a) (Z.to_nat j))); [done|].
        apply lookup_ge_None in H.
        rewrite length_app, length_app, length_replicate in H. simpl in H. lia.
      * simpl. destruct (decide (Z.to_nat j < length (elems a))%nat) as [Hlt|Hge].
        { rewrite lookup_app_l in H by done.
          rewrite H. done. }
        { by rewrite (proj2 (lookup_ge_None (elems a) (Z.to_nat j))) by lia. }
Qed.

Lemma Arr_length_set a i v : Arr.length a ≤ Arr.length (Arr.set a i v).
Proof.
  unfold Arr.set, Arr.length.
  destruct (i <? 0); simpl; [lia|].
  destruct (i <? Z.of_nat (length (elems a))); simpl.
  - rewrite length_insert. lia.
  - rewrite length_app. lia.
Qed.

End ArrFacts.

(** ** Grid2D: the layout is an invariant *)

Section Grid2DLayout.
Context {T : Type}.
Implicit Types (g : Grid2D.t T) (v : jsval T) (x y : Z).

Lemma Grid2D_constructor_layout (h w : Z) v :
  Grid2D.layout (Grid2D.constructor h w v).
Proof.
  unfold Grid2D.layout, Grid2D.constructor, Arr.length, Arr.new_fill; simpl.
  repeat split. rewrite length_replicate. nia.
Qed.

Lemma Grid2D_set_layout g x y v :
  Grid2D.layout g → Grid2D.layout (Grid2D.set g x y v).
Proof.
  intros (Ho & Hs & Hl). unfold Grid2D.set.
  destruct (_ || _); [done|]. destruct (_ || _); [done|].
  repeat split; simpl; try done.
  pose proof (Arr_length_set (Grid2D.data g) (x + y * Grid2D.offset g) v). lia.
Qed.

(** In-range coordinates address distinct cells of the store. *)
Lemma Grid2D_index_inj g x y x' y' :
  Grid2D.offset g = Z.max (Grid2D.height g) (Grid2D.width g) →
  0 ≤ x < Grid2D.width g → 0 ≤ x' < Grid2D.width g →
  x + y * Grid2D.offset g = x' + y' * Grid2D.offset g →
  x = x' ∧ y = y'.
Proof.
  intros Ho Hx Hx' Heq.
  assert (Hw : Grid2D.width g ≤ Grid2D.offset g) by lia.
  assert (y = y') by nia. subst y'. lia.
Qed.

Lemma Grid2D_get_in g x y :
  0 ≤ x < Grid2D.width g → 0 ≤ y < Grid2D.height g →
  Grid2D.get g x y = Arr.get (Grid2D.data g) (x + y * Grid2D.offset g).
Proof.
  intros Hx Hy. unfold Grid2D.get.
  destruct (x <? 0) eqn:E1; [lia|].
  destruct (x >? Grid2D.width g - 1) eqn:E2; [lia|].
  destruct (y <? 0) eqn:E3; [lia|].
  destruct (y >? Grid2D.height g - 1) eqn:E4; [lia|]. done.
Qed.

Lemma Grid2D_set_in g x y v :
  0 ≤ x < Grid2D.width g → 0 ≤ y < Grid2D.height g →
  Grid2D.set g x y v =
  Grid2D.mk (Grid2D.height g) (Grid2D.width g) (Grid2D.size g) (Grid2D.offset g)
            (Arr.set (Grid2D.data g) (x + y * Grid2D.offset g) v).
Proof.
  intros Hx Hy. unfold Grid2D.set.
  destruct (x <? 0) eqn:E1; [lia|].
  destruct (x >? Grid2D.width g - 1) eqn:E2; [lia|].
  destruct (y <? 0) eqn:E3; [lia|].
  destruct (y >? Grid2D.height g - 1) eqn:E4; [lia|]. done.
Qed.

Lemma Grid2D_get_out g x y :
  x < 0 ∨ Grid2D.width g ≤ x ∨ y < 0 ∨ Grid2D.height g ≤ y →
  Grid2D.get g x y = undefined.
Proof.
  intros H. unfold Grid2D.get.
  destruct (x <? 0) eqn:E1; [done|].
  destruct (x >? Grid2D.width g - 1) eqn:E2; [done|].
  destruct (y <? 0) eqn:E3; [done|].
  destruct (y >? Grid2D.height g - 1) eqn:E4; [done|]. lia.
Qed.

Lemma Grid2D_set_out g x y v :
  x < 0 ∨ Grid2D.width g ≤ x ∨ y < 0 ∨ Grid2D.height g ≤ y →
  Grid2D.set g x y v = g.
Proof.
  intros H. unfold Grid2D.set.
  destruct (x <? 0) eqn:E1; [done|].
  destruct (x >? Grid2D.width g - 1) eqn:E2; [done|].
  destruct (y <? 0) eqn:E3; [done|].
  destruct (y >? Grid2D.height g - 1) eqn:E4; [done|]. lia.
Qed.

(** C1.  On a grid with the constructor's layout and for in-range (x, y),
    [get(x, y)] after [set(x, y, v)] returns [v], and [get] at every other
    in-range coordinate returns what it returned before the [set]. *)
Theorem Grid2D_get_after_set g x y v :
  Grid2D.layout g →
  0 ≤ x < Grid2D.width g → 0 ≤ y < Grid2D.height g →
  Grid2D.get (Grid2D.set g x y v) x y = v ∧
  ∀ x' y', 0 ≤ x' < Grid2D.width g → 0 ≤ y' < Grid2D.height g →
           (x', y') ≠ (x, y) →
           Grid2D.get (Grid2D.set g x y v) x' y' = Grid2D.get g x' y'.
Proof.
  intros (Ho & _) Hx Hy. rewrite Grid2D_set_in by done. split.
  - rewrite Grid2D_get_in by done. simpl. apply Arr_get_set_eq.
  - intros x' y' Hx' Hy' Hne.
    rewrite !Grid2D_get_in by done. simpl.
    apply Arr_get_set_ne. intros Heq.
    apply Grid2D_index_inj in Heq; [|done..].
    destruct Heq; congruence.
Qed.

(** C2.  For (x, y) outside the rectangle, [get(x, y)] returns the absent
    value and [set(x, y, v)] returns the grid as it was; both are total
    functions, so neither signals an error. *)
Theorem Grid2D_out_of_range g x y v :
  x < 0 ∨ Grid2D.width g ≤ x ∨ y < 0 ∨ Grid2D.height g ≤ y →
  Grid2D.get g x y = undefined ∧ Grid2D.set g x y v = g.
Proof.
  intros H. split; [by apply Grid2D_get_out | by apply Grid2D_set_out].
Qed.

End Grid2DLayout.

Lemma Grid2D_get_after_set_witness :
  let g := Grid2D.constructor 2 3 (val 0) in
  Grid2D.get (Grid2D.set g 2 1 (val 7)) 2 1 = val 7 ∧
  ∀ x' y', 0 ≤ x' < Grid2D.width g → 0 ≤ y' < Grid2D.height g →
           (x', y') ≠ (2, 1) →
           Grid2D.get (Grid2D.set g 2 1 (val 7)) x' y' = Grid2D.get g x' y'.
Proof.
  intros g. apply (Grid2D_get_after_set g 2 1 (val 7)).
  - apply Grid2D_constructor_layout.
  - simpl; lia.
  - simpl; lia.
Defined.

Lemma Grid2D_out_of_range_witness :
  let g := Grid2D.constructor 2 3 (val 0) in
  Grid2D.get g 3 0 = undefined ∧ Grid2D.set g 3 0 (val 7) = g.
Proof.
  intros g. apply (Grid2D_out_of_range g 3 0 (val 7)).
  right; left. simpl; lia.
Defined.

Lemma Grid2D_increment_layout (g : Grid2D.t number) (x y : Z) :
  Grid2D.layout g → Grid2D.layout (Grid2D.increment g x y).
Proof.
  intros (Ho & Hs & Hl). unfold Grid2D.increment.
  repeat split; simpl; try done.
  etrans; [exact Hl | apply Arr_length_set].
Qed.

Lemma Grid2D_incrementLine_layout (g : Grid2D.t number) (x1 y1 x2 y2 : Z) :
  Grid2D.layout g → Grid2D.layout (Grid2D.incrementLine g x1 y1 x2 y2).
Proof.
  unfold Grid2D.incrementLine.
  generalize (seqZ 0 (Z.max (Z.abs (x1 - x2)) (Z.abs (y1 - y2)) + 1)).
  intros l. revert g. induction l as [|i l IH]; intros g Hlay; simpl; [done|].
  apply IH. by apply Grid2D_increment_layout.
Qed.

(** The examples of the specification: parsing, rows and columns, and a
    filled cube. *)
Example parse_2x2 :
  (fun g => (Grid2D.get g 1 0, Grid2D.get g 0 1, Grid2D.horizontals g,
             Grid2D.verticals g))
    <$> Grid2D.parse [[1; 2]; [3; 4]] =
  Some (val 2, val 3, [[val 1; val 2]; [val 3; val 4]],
        [[val 1; val 3]; [val 2; val 4]]).
Proof. by vm_compute. Qed.

Example setCube_2x2x2 :
  let five (v : jsval number) :=
    match v with val (num 5) => true | _ => false end in
  Grid3D.count
    (Grid3D.setCube (Grid3D.constructor 2 2 2 (num 0)) 0 0 0 1 1 1 (val (num 5)))
    five = 8.
Proof. by vm_compute. Qed.

(** ** Grid2D: the searches scan the whole store *)

Section Grid2DSearch.
Context {T : Type}.
Implicit Types (g : Grid2D.t T) (v : jsval T) (p : jsval T → bool).

Lemma foldl_push {A B : Type} (c : A → bool) (f : A → B) (l : list A) (acc : list B) :
  foldl (fun res i => if c i then res ++ [f i] else res) acc l =
  acc ++ (f <$> filter (fun i => c i = true) l).
Proof.
  revert acc. induction l as [|i l IH]; intros acc; simpl.
  - by rewrite app_nil_r.
  - rewrite IH. rewrite filter_cons.
    destruct (c i) eqn:Hc; case_decide; try congruence.
    rewrite fmap_cons, <- app_assoc. done.
Qed.

Lemma elem_of_filter_slots p (l : list (slot T)) v :
  v ∈ Arr.filter_slots p l ↔ p v = true ∧ elem v ∈ l.
Proof.
  induction l as [|s l IH]; simpl.
  - split; [inversion 1 | intros [_ H]; inversion H].
  - destruct s as [|w].
    + rewrite IH, elem_of_cons. split.
      * intros [Hp Hin]. auto.
      * intros [Hp [Heq|Hin]]; [discriminate|auto].
    + destruct (p w) eqn:Hw.
      * rewrite !elem_of_cons, IH. split.
        { intros [->|[Hp Hin]]; auto. }
        { intros [Hp [Heq|Hin]]; [left; congruence|auto]. }
      * rewrite IH, elem_of_cons. split.
        { intros [Hp Hin]. auto. }
        { intros [Hp [Heq|Hin]]; [congruence|auto]. }
Qed.

Lemma Grid2D_findAll_fmap g p :
  Grid2D.findAll g p =
  (fun idx => (idx - idx / Grid2D.offset g * Grid2D.offset g, idx / Grid2D.offset g))
    <$> filter (fun idx => p (Arr.get (Grid2D.data g) idx) = true)
               (seqZ 0 (Grid2D.size g)).
Proof. unfold Grid2D.findAll. by rewrite foldl_push. Qed.

Lemma Grid2D_elem_of_findAll g p (x y : Z) :
  Grid2D.layout g → 0 < Grid2D.offset g →
  (x, y) ∈ Grid2D.findAll g p ↔
  0 ≤ x < Grid2D.offset g ∧ 0 ≤ y < Grid2D.offset g ∧
  p (Arr.get (Grid2D.data g) (x + y * Grid2D.offset g)) = true.
Proof.
  intros (Ho & Hs & Hl) Hpos.
  rewrite Grid2D_findAll_fmap, list_elem_of_fmap.
  set (o := Grid2D.offset g) in *.
  split.
  - intros (idx & Heq & Hin).
    apply list_elem_of_filter in Hin as [Hp Hin].
    apply elem_of_seqZ in Hin. rewrite Hs in Hin.
    injection Heq as -> ->.
    pose proof (Z.mul_div_le idx o Hpos).
    pose proof (Z.mul_succ_div_gt idx o Hpos).
    replace (idx - idx / o * o + idx / o * o) with idx by lia.
    split_and!; try done; try lia.
    + apply Z.div_pos; lia.
    + apply Z.div_lt_upper_bound; lia.
  - intros (Hx & Hy & Hp). exists (x + y * o).
    assert (Hd : (x + y * o) / o = y).
    { rewrite Z.div_add by lia. rewrite Z.div_small by lia. lia. }
    split.
    + rewrite Hd. f_equal. lia.
    + apply list_elem_of_filter. split; [done|].
      apply elem_of_seqZ. rewrite Hs. fold o. nia.
Qed.

Lemma Arr_get_elems a (k : nat) (s : slot T) :
  elems a !! k = Some s → Arr.get a (Z.of_nat k) = slot_val s.
Proof.
  intros Hk. unfold Arr.get.
  destruct (Z.of_nat k <? 0) eqn:E; [apply Z.ltb_lt in E; lia|].
  by rewrite Nat2Z.id, Hk.
Qed.

Lemma findIndex_from_first p (l : list (slot T)) (i : Z) (n : nat) (s : slot T) :
  l !! n = Some s → p (slot_val s) = true →
  (∀ m s', (m < n)%nat → l !! m = Some s' → p (slot_val s') = false) →
  Arr.findIndex_from p l i = i + Z.of_nat n.
Proof.
  revert i n. induction l as [|s0 l IH]; intros i n Hn Hp Hbefore; [done|].
  destruct n as [|n]; simpl in *.
  - injection Hn as ->. rewrite Hp. lia.
  - rewrite (Hbefore 0%nat s0) by (done || lia).
    rewrite (IH (i + 1) n); [lia|done..|].
    intros m s' Hm Hs'. apply (Hbefore (S m) s'); [lia|done].
Qed.

Lemma first_match_exists p (l : list (slot T)) :
  (∃ s, s ∈ l ∧ p (slot_val s) = true) →
  ∃ n s, l !! n = Some s ∧ p (slot_val s) = true ∧
         ∀ m s', (m < n)%nat → l !! m = Some s' → p (slot_val s') = false.
Proof.
  induction l as [|s0 l IH]; intros (s & Hin & Hp); [inversion Hin|].
  destruct (p (slot_val s0)) eqn:Hp0.
  - exists 0%nat, s0. split; [done|]. split; [done|]. intros m s' Hm. lia.
  - apply elem_of_cons in Hin as [->|Hin]; [congruence|].
    destruct IH as (n & s1 & Hn & Hp1 & Hbefore); [by exists s|].
    exists (S n), s1. split; [done|]. split; [done|].
    intros [|m] s' Hm Hs'; simpl in Hs'.
    + by injection Hs' as <-.
    + apply (Hbefore m s'); [lia|done].
Qed.

Lemma stride_coords (o idx : Z) :
  0 < o → 0 ≤ idx →
  0 ≤ idx - idx / o * o < o ∧ 0 ≤ idx / o ∧
  (idx - idx / o * o) + idx / o * o = idx.
Proof.
  intros Ho Hidx.
  pose proof (Z.mul_div_le idx o Ho).
  pose proof (Z.mul_succ_div_gt idx o Ho).
  split; [lia|]. split; [|lia]. apply Z.div_pos; lia.
Qed.

(** The point [find] returns when the store's first match is at index n. *)
Lemma Grid2D_find_at g p (n : nat) (s : slot T) :
  0 < Grid2D.offset g →
  elems (Grid2D.data g) !! n = Some s → p (slot_val s) = true →
  (∀ m s', (m < n)%nat → elems (Grid2D.data g) !! m = Some s' →
           p (slot_val s') = false) →
  ∃ x y, Grid2D.find g p = (x, y) ∧
         0 ≤ x < Grid2D.offset g ∧ 0 ≤ y ∧
         x + y * Grid2D.offset g = Z.of_nat n ∧
         p (Arr.get (Grid2D.data g) (x + y * Grid2D.offset g)) = true ∧
         ∀ idx, 0 ≤ idx < x + y * Grid2D.offset g →
                p (Arr.get (Grid2D.data g) idx) = false.
Proof.
  intros Ho Hn Hp Hbefore. unfold Grid2D.find, Arr.findIndex.
  rewrite (findIndex_from_first p _ 0 n s) by done. rewrite Z.add_0_l.
  destruct (stride_coords (Grid2D.offset g) (Z.of_nat n) Ho ltac:(lia))
    as (Hx & Hy & Heq).
  eexists _, _. split; [reflexivity|].
  split; [done|]. split; [done|]. split; [done|]. rewrite Heq. split.
  - by rewrite (Arr_get_elems _ n s).
  - intros idx Hidx.
    destruct (lookup_lt_is_Some_2 (elems (Grid2D.data g)) (Z.to_nat idx)) as [s' Hs'].
    { apply lookup_lt_Some in Hn. lia. }
    replace idx with (Z.of_nat (Z.to_nat idx)) by lia.
    rewrite (Arr_get_elems _ _ s') by done.
    apply (Hbefore (Z.to_nat idx)); [lia|done].
Qed.

Lemma filter_slots_kept p (l : list (slot T)) :
  Arr.filter_slots p l = slot_val <$> filter (fun s => Arr.kept p s = true) l.
Proof.
  induction l as [|s l IH]; [done|].
  destruct s as [|v].
  - rewrite filter_cons_False by (simpl; congruence). exact IH.
  - cbn [Arr.filter_slots]. destruct (p v) eqn:Hv.
    + rewrite filter_cons_True by done. rewrite fmap_cons, IH. done.
    + rewrite filter_cons_False by (simpl; congruence). exact IH.
Qed.

(** C3, as the code has it.  [get] reads nothing but the cells of the
    rectangle, while the searches scan the whole store of stride
    [max(width, height)], padding included.  [findAll(p)] returns exactly the
    coordinates of the stride-by-stride square whose cell satisfies [p];
    [filter(p)] returns, in order, the value of every slot of the store that
    holds a value satisfying [p], and [count(p)] is the number of these
    slots; when some element of the store satisfies [p], [find(p)] returns
    the coordinates, within the stride, of the first such element in storage
    order. *)
Theorem Grid2D_search_scans_store g p :
  Grid2D.layout g → 0 < Grid2D.offset g →
  (∀ x y, Grid2D.get g x y = undefined ∨
          (Grid2D.in_rect g (x, y) ∧
           Grid2D.get g x y = Arr.get (Grid2D.data g) (x + y * Grid2D.offset g))) ∧
  (∀ x y, (x, y) ∈ Grid2D.findAll g p ↔
          0 ≤ x < Z.max (Grid2D.width g) (Grid2D.height g) ∧
          0 ≤ y < Z.max (Grid2D.width g) (Grid2D.height g) ∧
          p (Arr.get (Grid2D.data g) (x + y * Grid2D.offset g)) = true) ∧
  (∀ v, v ∈ Grid2D.filter g p ↔ p v = true ∧ elem v ∈ elems (Grid2D.data g)) ∧
  Grid2D.filter g p =
    slot_val <$> filter (fun s => Arr.kept p s = true) (elems (Grid2D.data g)) ∧
  Grid2D.count g p =
    Z.of_nat (length (filter (fun s => Arr.kept p s = true)
                             (elems (Grid2D.data g)))) ∧
  ((∃ s, s ∈ elems (Grid2D.data g) ∧ p (slot_val s) = true) →
   ∃ x y, Grid2D.find g p = (x, y) ∧
          0 ≤ x < Z.max (Grid2D.width g) (Grid2D.height g) ∧ 0 ≤ y ∧
          p (Arr.get (Grid2D.data g) (x + y * Grid2D.offset g)) = true ∧
          ∀ idx, 0 ≤ idx < x + y * Grid2D.offset g →
                 p (Arr.get (Grid2D.data g) idx) = false).
Proof.
  intros Hlay Hpos. split; [|split; [|split; [|split; [|split]]]].
  - intros x y.
    destruct (decide (0 ≤ x < Grid2D.width g ∧ 0 ≤ y < Grid2D.height g)) as [[Hx Hy]|Hout].
    + right. split; [done|]. by apply Grid2D_get_in.
    + left. apply Grid2D_get_out. lia.
  - intros x y. rewrite Grid2D_elem_of_findAll by done.
    destruct Hlay as (Ho & _). rewrite Z.max_comm, <- Ho. done.
  - intros v. apply elem_of_filter_slots.
  - apply filter_slots_kept.
  - unfold Grid2D.count, Grid2D.filter, Arr.filter.
    by rewrite filter_slots_kept, length_fmap.
  - intros Hex.
    destruct (first_match_exists p _ Hex) as (n & s & Hn & Hp & Hbefore).
    destruct (Grid2D_find_at g p n s Hpos Hn Hp Hbefore)
      as (x & y & Hfind & Hx & Hy & _ & Hpxy & Hfirst).
    exists x, y. destruct Hlay as (Ho & _).
    rewrite Z.max_comm, <- Ho. done.
Qed.

End Grid2DSearch.

Example padded_grid_searches :
  Grid2D.filter padded_grid is_zero = [val 0; val 0] ∧
  Grid2D.count padded_grid is_zero = 2 ∧
  Grid2D.find padded_grid is_zero = (0, 1) ∧
  Grid2D.findAll padded_grid is_zero = [(0, 1); (1, 1)].
Proof. vm_compute. done. Qed.

(** C3, as stated, fails: on [padded_grid], whose width differs from its
    height, [findAll] returns the coordinate (0, 1) of a padding cell. *)
Lemma Grid2D_padding_observable :
  Grid2D.width padded_grid ≠ Grid2D.height padded_grid ∧
  ¬ Grid2D.only_rect_observable padded_grid.
Proof.
  split; [vm_compute; discriminate|].
  intros H. destruct (H is_zero) as [_ Hall].
  assert (Hin : (0, 1) ∈ Grid2D.findAll padded_grid is_zero).
  { vm_compute. apply list_elem_of_here. }
  apply Hall in Hin. destruct Hin as [_ Hy]. vm_compute in Hy.
  destruct Hy as [_ Hy]. discriminate.
Qed.

Lemma Grid2D_search_scans_store_witness :
  ((0, 1) ∈ Grid2D.findAll padded_grid is_zero ↔
   0 ≤ 0 < 2 ∧ 0 ≤ 1 < 2 ∧
   is_zero (Arr.get (Grid2D.data padded_grid) (0 + 1 * 2)) = true) ∧
  Grid2D.count padded_grid is_zero =
    Z.of_nat (length (filter (fun s => Arr.kept is_zero s = true)
                             (elems (Grid2D.data padded_grid)))) ∧
  ∃ x y, Grid2D.find padded_grid is_zero = (x, y) ∧
         0 ≤ x < 2 ∧ 0 ≤ y ∧
         is_zero (Arr.get (Grid2D.data padded_grid) (x + y * 2)) = true ∧
         ∀ idx, 0 ≤ idx < x + y * 2 →
                is_zero (Arr.get (Grid2D.data padded_grid) idx) = false.
Proof.
  destruct (Grid2D_search_scans_store padded_grid is_zero)
    as (_ & HfindAll & _ & _ & Hcount & Hfind).
  - unfold padded_grid. do 2 apply Grid2D_set_layout. apply Grid2D_constructor_layout.
  - vm_compute. reflexivity.
  - split; [apply HfindAll|]. split; [exact Hcount|].
    apply Hfind. exists (elem (val 0)). split; [|reflexivity].
    do 2 apply list_elem_of_further. apply list_elem_of_here.
Defined.

(** ** Grid2D: diagonals *)

Section Grid2DDiagonals.
Context {T : Type}.
Implicit Types (g : Grid2D.t T) (d : Z).

Lemma range_0 (n : Z) : range 0 (n - 1) = seqZ 0 n.
Proof. unfold range. f_equal. lia. Qed.

Lemma length_range_0 (n : Z) : length (range 0 n) = Z.to_nat (n + 1).
Proof. unfold range. rewrite length_seqZ. f_equal. lia. Qed.

Lemma lookup_range_0 (n d : Z) :
  0 ≤ d ≤ n → range 0 n !! Z.to_nat d = Some d.
Proof.
  intros Hd. unfold range. rewrite lookup_seqZ_lt by lia. f_equal. lia.
Qed.

Lemma Grid2D_diagonals_points g :
  Grid2D.diagonals g =
  (fun l : list Point => (fun pt : Point => Grid2D.get g pt.1 pt.2) <$> l) <$> Grid2D.diagonalPoints g.
Proof.
  unfold Grid2D.diagonals, Grid2D.diagonalPoints.
  rewrite <- list_fmap_compose. apply list_fmap_ext. intros _ d _. simpl.
  by rewrite <- list_fmap_compose.
Qed.

Lemma Grid2D_antiDiagonals_points g :
  Grid2D.antiDiagonals g =
  (fun l : list Point => (fun pt : Point => Grid2D.get g pt.1 pt.2) <$> l) <$> Grid2D.antiDiagonalPoints g.
Proof.
  unfold Grid2D.antiDiagonals, Grid2D.antiDiagonalPoints.
  rewrite <- list_fmap_compose. apply list_fmap_ext. intros _ d _. simpl.
  by rewrite <- list_fmap_compose.
Qed.

Lemma spec_diagLength_bounds g d :
  0 < Grid2D.width g → 0 < Grid2D.height g →
  0 ≤ d ≤ Grid2D.width g + Grid2D.height g - 2 →
  Grid2D.spec_diagLength g d =
    Z.min (Z.min (Grid2D.width g) (Grid2D.height g))
          (Z.min (d + 1) (Grid2D.width g + Grid2D.height g - 2 - d + 1)) ∧
  1 ≤ Grid2D.spec_diagLength g d ≤ Z.min (Grid2D.width g) (Grid2D.height g).
Proof.
  intros Hw Hh Hd. unfold Grid2D.spec_diagLength, lt_half.
  destruct (2 * d <? _) eqn:E; [apply Z.ltb_lt in E | apply Z.ltb_ge in E]; lia.
Qed.

(** C4, as the code has it.  For positive dimensions [diagonals()] returns
    [width + height - 1] diagonals, those of index d = 0 .. numDiags with
    numDiags = width + height - 2.  Diagonal d has length
    min(maxLen, d < numDiags/2 ? d+1 : numDiags-d+1), which is
    min(maxLen, d+1, numDiags-d+1): it ramps up then down, capped at
    maxLen = min(width, height); it reads [get] along the diagonal that starts
    at (0, height-d-1) if d < height and at (d-height+1, 0) otherwise. *)
Theorem Grid2D_diagonals_shape g :
  0 < Grid2D.width g → 0 < Grid2D.height g →
  length (Grid2D.diagonals g) = Z.to_nat (Grid2D.width g + Grid2D.height g - 1) ∧
  ∀ d, 0 ≤ d ≤ Grid2D.width g + Grid2D.height g - 2 →
    ∃ diag, Grid2D.diagonals g !! Z.to_nat d = Some diag ∧
      Z.of_nat (length diag) = Grid2D.spec_diagLength g d ∧
      1 ≤ Grid2D.spec_diagLength g d ≤ Z.min (Grid2D.width g) (Grid2D.height g) ∧
      Grid2D.spec_diagLength g d =
        Z.min (Z.min (Grid2D.width g) (Grid2D.height g))
              (Z.min (d + 1) (Grid2D.width g + Grid2D.height g - 2 - d + 1)) ∧
      diag = (fun i => Grid2D.get g ((Grid2D.spec_diagStart g d).1 + i)
                                    ((Grid2D.spec_diagStart g d).2 + i))
               <$> seqZ 0 (Grid2D.spec_diagLength g d).
Proof.
  intros Hw Hh. split.
  - unfold Grid2D.diagonals. rewrite length_fmap, length_range_0. f_equal. lia.
  - intros d Hd.
    destruct (spec_diagLength_bounds g d Hw Hh Hd) as [Hmin Hb].
    eexists. split.
    { unfold Grid2D.diagonals. rewrite list_lookup_fmap, lookup_range_0 by lia.
      simpl. reflexivity. }
    fold (Grid2D.spec_diagLength g d).
    rewrite range_0. split; [|split; [done|split; [done|]]].
    + rewrite length_fmap, length_seqZ. lia.
    + apply list_fmap_ext. intros _ i _.
      unfold Grid2D.spec_diagStart. by destruct (d <? Grid2D.height g).
Qed.

End Grid2DDiagonals.

(** C4, as stated, fails: a 2 by 2 grid has three diagonals, not
    width + height - 2 = 2. *)
Lemma Grid2D_diagonals_count_not_w_plus_h_minus_2 :
  let g := Grid2D.constructor 2 2 (val 0) in
  length (Grid2D.diagonals g) ≠ Z.to_nat (Grid2D.width g + Grid2D.height g - 2).
Proof. vm_compute. discriminate. Qed.

Lemma Grid2D_diagonals_shape_witness :
  let g := Grid2D.constructor 2 3 (val 0) in
  length (Grid2D.diagonals g) = 4%nat.
Proof.
  intros g. apply (Grid2D_diagonals_shape g); vm_compute; reflexivity.
Defined.

(** ** Grid2D: the diagonals cover the rectangle *)

Section Grid2DCover.
Context {T : Type}.
Implicit Types (g : Grid2D.t T) (d x y : Z).

Lemma join_fmap_bind {A B : Type} (f : A → list B) (l : list A) :
  mjoin (f <$> l) = l ≫= f.
Proof. rewrite list_join_bind, list_fmap_bind. done. Qed.

Lemma elem_of_range a b k : k ∈ range a b ↔ a ≤ k ≤ b.
Proof. unfold range. rewrite elem_of_seqZ. lia. Qed.

Lemma NoDup_range a b : NoDup (range a b).
Proof. apply NoDup_seqZ. Qed.

Lemma Grid2D_elem_of_cells g x y :
  (x, y) ∈ Grid2D.cells g ↔ 0 ≤ x < Grid2D.width g ∧ 0 ≤ y < Grid2D.height g.
Proof.
  unfold Grid2D.cells. rewrite list_elem_of_bind. split.
  - intros (y' & Hin & Hy'). apply elem_of_range in Hy'.
    apply list_elem_of_fmap in Hin as (x' & Heq & Hx').
    apply elem_of_range in Hx'. injection Heq as -> ->. lia.
  - intros [Hx Hy]. exists y. split.
    + apply list_elem_of_fmap. exists x. split; [done|]. apply elem_of_range. lia.
    + apply elem_of_range. lia.
Qed.

Lemma Grid2D_NoDup_cells g : NoDup (Grid2D.cells g).
Proof.
  unfold Grid2D.cells. apply NoDup_bind.
  - intros y1 y2 pt _ _ H1 H2.
    apply list_elem_of_fmap in H1 as (x1 & -> & _).
    apply list_elem_of_fmap in H2 as (x2 & Heq & _). congruence.
  - intros y _. apply NoDup_fmap_2_strong; [|apply NoDup_range].
    intros x1 x2 _ _ Heq. congruence.
  - apply NoDup_range.
Qed.

(** The points of diagonal [d]: those at distance [i] below its start. *)
Lemma Grid2D_elem_of_diagonal g d x y :
  (x, y) ∈
    ((fun idx => ((Grid2D.spec_diagStart g d).1 + idx,
                  (Grid2D.spec_diagStart g d).2 + idx))
       <$> range 0 (Grid2D.spec_diagLength g d - 1)) ↔
  ∃ i, 0 ≤ i < Grid2D.spec_diagLength g d ∧
       x = (Grid2D.spec_diagStart g d).1 + i ∧
       y = (Grid2D.spec_diagStart g d).2 + i.
Proof.
  rewrite list_elem_of_fmap. split.
  - intros (i & Heq & Hi). apply elem_of_range in Hi.
    injection Heq as -> ->. exists i. lia.
  - intros (i & Hi & -> & ->). exists i. split; [done|]. apply elem_of_range. lia.
Qed.

Lemma Grid2D_diagonalPoints_bind g :
  mjoin (Grid2D.diagonalPoints g) =
  range 0 (Grid2D.width g + Grid2D.height g - 2) ≫= fun d =>
    (fun idx => ((Grid2D.spec_diagStart g d).1 + idx,
                 (Grid2D.spec_diagStart g d).2 + idx))
      <$> range 0 (Grid2D.spec_diagLength g d - 1).
Proof.
  unfold Grid2D.diagonalPoints. rewrite join_fmap_bind.
  apply list_bind_ext; [|done]. intros d.
  fold (Grid2D.spec_diagLength g d). apply list_fmap_ext. intros _ i _.
  unfold Grid2D.spec_diagStart. by destruct (d <? Grid2D.height g).
Qed.

Lemma Grid2D_diagonal_in_rect g d x y i :
  0 < Grid2D.width g → 0 < Grid2D.height g →
  0 ≤ d ≤ Grid2D.width g + Grid2D.height g - 2 →
  0 ≤ i < Grid2D.spec_diagLength g d →
  x = (Grid2D.spec_diagStart g d).1 + i →
  y = (Grid2D.spec_diagStart g d).2 + i →
  0 ≤ x < Grid2D.width g ∧ 0 ≤ y < Grid2D.height g ∧
  d = x - y + Grid2D.height g - 1.
Proof.
  intros Hw Hh Hd Hi -> ->.
  destruct (spec_diagLength_bounds g d Hw Hh Hd) as [Hmin _].
  rewrite Hmin in Hi. clear Hmin. unfold Grid2D.spec_diagStart.
  destruct (d <? Grid2D.height g) eqn:E;
    [apply Z.ltb_lt in E | apply Z.ltb_ge in E]; simpl; lia.
Qed.

Lemma Grid2D_point_on_diagonal g x y :
  0 ≤ x < Grid2D.width g → 0 ≤ y < Grid2D.height g →
  let d := x - y + Grid2D.height g - 1 in
  0 ≤ d ≤ Grid2D.width g + Grid2D.height g - 2 ∧
  ∃ i, 0 ≤ i < Grid2D.spec_diagLength g d ∧
       x = (Grid2D.spec_diagStart g d).1 + i ∧
       y = (Grid2D.spec_diagStart g d).2 + i.
Proof.
  intros Hx Hy d. assert (Hd : 0 ≤ d ≤ Grid2D.width g + Grid2D.height g - 2) by lia.
  split; [done|].
  destruct (spec_diagLength_bounds g d ltac:(lia) ltac:(lia) Hd) as [Hmin _].
  rewrite Hmin. clear Hmin. unfold Grid2D.spec_diagStart.
  destruct (d <? Grid2D.height g) eqn:E;
    [apply Z.ltb_lt in E; exists x | apply Z.ltb_ge in E; exists y]; simpl; lia.
Qed.

Lemma Grid2D_elem_of_diagonalPoints g x y :
  0 < Grid2D.width g → 0 < Grid2D.height g →
  (x, y) ∈ mjoin (Grid2D.diagonalPoints g) ↔
  0 ≤ x < Grid2D.width g ∧ 0 ≤ y < Grid2D.height g.
Proof.
  intros Hw Hh. rewrite Grid2D_diagonalPoints_bind, list_elem_of_bind. split.
  - intros (d & Hin & Hd). apply elem_of_range in Hd.
    apply Grid2D_elem_of_diagonal in Hin as (i & Hi & Hxi & Hyi).
    destruct (Grid2D_diagonal_in_rect g d x y i) as (? & ? & _); done.
  - intros [Hx Hy].
    destruct (Grid2D_point_on_diagonal g x y Hx Hy) as (Hd & i & Hi & Hxi & Hyi).
    eexists. split.
    + apply Grid2D_elem_of_diagonal. exists i. done.
    + by apply elem_of_range.
Qed.

Lemma Grid2D_NoDup_diagonalPoints g :
  0 < Grid2D.width g → 0 < Grid2D.height g →
  NoDup (mjoin (Grid2D.diagonalPoints g)).
Proof.
  intros Hw Hh. rewrite Grid2D_diagonalPoints_bind. apply NoDup_bind.
  - intros d1 d2 [x y] Hd1 Hd2 H1 H2.
    apply elem_of_range in Hd1, Hd2.
    apply Grid2D_elem_of_diagonal in H1 as (i1 & Hi1 & Hx1 & Hy1).
    apply Grid2D_elem_of_diagonal in H2 as (i2 & Hi2 & Hx2 & Hy2).
    destruct (Grid2D_diagonal_in_rect g d1 x y i1) as (_ & _ & ->); try done.
    destruct (Grid2D_diagonal_in_rect g d2 x y i2) as (_ & _ & ->); done.
  - intros d _. apply NoDup_fmap_2_strong; [|apply NoDup_range].
    intros i1 i2 _ _ Heq. injection Heq. lia.
  - apply NoDup_range.
Qed.

(** The diagonals partition the rectangle: joined, the coordinates that
    [diagonals] reads are the cells of the rectangle, each exactly once. *)
Lemma Grid2D_diagonals_cover g :
  0 < Grid2D.width g → 0 < Grid2D.height g →
  mjoin (Grid2D.diagonalPoints g) ≡ₚ Grid2D.cells g.
Proof.
  intros Hw Hh. apply NoDup_Permutation.
  - by apply Grid2D_NoDup_diagonalPoints.
  - apply Grid2D_NoDup_cells.
  - intros [x y]. rewrite Grid2D_elem_of_diagonalPoints by done.
    by rewrite Grid2D_elem_of_cells.
Qed.

Lemma length_bind_const {A B : Type} (f : A → list B) (l : list A) (n : nat) :
  (∀ a, length (f a) = n) → length (l ≫= f) = (length l * n)%nat.
Proof.
  intros Hf. induction l as [|a l IH]; [done|].
  rewrite bind_cons, length_app, Hf, IH. simpl. lia.
Qed.

Lemma Grid2D_length_cells g :
  0 < Grid2D.width g → 0 < Grid2D.height g →
  Z.of_nat (length (Grid2D.cells g)) = Grid2D.width g * Grid2D.height g.
Proof.
  intros Hw Hh. unfold Grid2D.cells.
  rewrite (length_bind_const _ _ (Z.to_nat (Grid2D.width g))).
  - rewrite length_range_0. nia.
  - intros y. rewrite length_fmap, length_range_0. f_equal. lia.
Qed.

Lemma length_join_fmap {A B : Type} (f : A → B) (ls : list (list A)) :
  length (mjoin ((fun l => f <$> l) <$> ls)) = length (mjoin ls).
Proof.
  induction ls as [|l ls IH]; [done|].
  change (length ((f <$> l) ++ mjoin ((fun l => f <$> l) <$> ls)) =
          length (l ++ mjoin ls)).
  by rewrite !length_app, length_fmap, IH.
Qed.

(** Joined, the entries of [diagonals()] are [width * height] values. *)
Lemma Grid2D_diagonals_total g :
  0 < Grid2D.width g → 0 < Grid2D.height g →
  Z.of_nat (length (mjoin (Grid2D.diagonals g))) = Grid2D.width g * Grid2D.height g.
Proof.
  intros Hw Hh. rewrite Grid2D_diagonals_points, length_join_fmap.
  rewrite (Permutation_length (Grid2D_diagonals_cover g Hw Hh)).
  by apply Grid2D_length_cells.
Qed.

(** On a square grid the anti-diagonals partition the rectangle too. *)

Lemma Grid2D_antiDiagonalPoints_bind g :
  mjoin (Grid2D.antiDiagonalPoints g) =
  range 0 (Grid2D.width g + Grid2D.height g - 2) ≫= fun d =>
    (fun idx => ((Grid2D.antiDiagStart g d).1 - idx,
                 (Grid2D.antiDiagStart g d).2 + idx))
      <$> range 0 (Grid2D.spec_diagLength g d - 1).
Proof.
  unfold Grid2D.antiDiagonalPoints. rewrite join_fmap_bind.
  apply list_bind_ext; [|done]. intros d.
  fold (Grid2D.spec_diagLength g d). apply list_fmap_ext. intros _ i _.
  unfold Grid2D.antiDiagStart. by destruct (d <? Grid2D.width g).
Qed.

Lemma Grid2D_elem_of_antiDiagonal g d x y :
  (x, y) ∈
    ((fun idx => ((Grid2D.antiDiagStart g d).1 - idx,
                  (Grid2D.antiDiagStart g d).2 + idx))
       <$> range 0 (Grid2D.spec_diagLength g d - 1)) ↔
  ∃ i, 0 ≤ i < Grid2D.spec_diagLength g d ∧
       x = (Grid2D.antiDiagStart g d).1 - i ∧
       y = (Grid2D.antiDiagStart g d).2 + i.
Proof.
  rewrite list_elem_of_fmap. split.
  - intros (i & Heq & Hi). apply elem_of_range in Hi.
    injection Heq as -> ->. exists i. lia.
  - intros (i & Hi & -> & ->). exists i. split; [done|]. apply elem_of_range. lia.
Qed.

Lemma Grid2D_antiDiagonal_in_rect g d x y i :
  0 < Grid2D.width g → Grid2D.width g = Grid2D.height g →
  0 ≤ d ≤ Grid2D.width g + Grid2D.height g - 2 →
  0 ≤ i < Grid2D.spec_diagLength g d →
  x = (Grid2D.antiDiagStart g d).1 - i →
  y = (Grid2D.antiDiagStart g d).2 + i →
  0 ≤ x < Grid2D.width g ∧ 0 ≤ y < Grid2D.height g ∧ d = x + y.
Proof.
  intros Hw Hsq Hd Hi -> ->.
  destruct (spec_diagLength_bounds g d Hw ltac:(lia) Hd) as [Hmin _].
  rewrite Hmin in Hi. clear Hmin. unfold Grid2D.antiDiagStart.
  destruct (d <? Grid2D.width g) eqn:E;
    [apply Z.ltb_lt in E | apply Z.ltb_ge in E]; simpl; lia.
Qed.

Lemma Grid2D_point_on_antiDiagonal g x y :
  Grid2D.width g = Grid2D.height g →
  0 ≤ x < Grid2D.width g → 0 ≤ y < Grid2D.height g →
  0 ≤ x + y ≤ Grid2D.width g + Grid2D.height g - 2 ∧
  ∃ i, 0 ≤ i < Grid2D.spec_diagLength g (x + y) ∧
       x = (Grid2D.antiDiagStart g (x + y)).1 - i ∧
       y = (Grid2D.antiDiagStart g (x + y)).2 + i.
Proof.
  intros Hsq Hx Hy.
  assert (Hd : 0 ≤ x + y ≤ Grid2D.width g + Grid2D.height g - 2) by lia.
  split; [done|].
  destruct (spec_diagLength_bounds g (x + y) ltac:(lia) ltac:(lia) Hd) as [Hmin _].
  rewrite Hmin. clear Hmin. unfold Grid2D.antiDiagStart.
  destruct (x + y <? Grid2D.width g) eqn:E;
    [apply Z.ltb_lt in E; exists y
    | apply Z.ltb_ge in E; exists (Grid2D.width g - 1 - x)]; simpl; lia.
Qed.

Lemma Grid2D_antiDiagonals_cover_square g :
  0 < Grid2D.width g → Grid2D.width g = Grid2D.height g →
  mjoin (Grid2D.antiDiagonalPoints g) ≡ₚ Grid2D.cells g.
Proof.
  intros Hw Hsq. rewrite Grid2D_antiDiagonalPoints_bind.
  apply NoDup_Permutation.
  - apply NoDup_bind.
    + intros d1 d2 [x y] Hd1 Hd2 H1 H2.
      apply elem_of_range in Hd1, Hd2.
      apply Grid2D_elem_of_antiDiagonal in H1 as (i1 & Hi1 & Hx1 & Hy1).
      apply Grid2D_elem_of_antiDiagonal in H2 as (i2 & Hi2 & Hx2 & Hy2).
      destruct (Grid2D_antiDiagonal_in_rect g d1 x y i1) as (_ & _ & ->); try done.
      destruct (Grid2D_antiDiagonal_in_rect g d2 x y i2) as (_ & _ & ->); done.
    + intros d _. apply NoDup_fmap_2_strong; [|apply NoDup_range].
      intros i1 i2 _ _ Heq. injection Heq. lia.
    + apply NoDup_range.
  - apply Grid2D_NoDup_cells.
  - intros [x y]. rewrite Grid2D_elem_of_cells, list_elem_of_bind. split.
    + intros (d & Hin & Hd). apply elem_of_range in Hd.
      apply Grid2D_elem_of_antiDiagonal in Hin as (i & Hi & Hxi & Hyi).
      destruct (Grid2D_antiDiagonal_in_rect g d x y i) as (? & ? & _); done.
    + intros [Hx Hy].
      destruct (Grid2D_point_on_antiDiagonal g x y Hsq Hx Hy)
        as (Hd & i & Hi & Hxi & Hyi).
      exists (x + y). split.
      * apply Grid2D_elem_of_antiDiagonal. exists i. done.
      * by apply elem_of_range.
Qed.

End Grid2DCover.

(** ** Grid2D: antiDiagonals on a grid that is not square *)

(** C5 at a grid of height 3 and width 2.  [diagonals()] returns each of the
    six cells once.  [antiDiagonals()] returns six values too, but its third
    anti-diagonal starts at y = diagIdx - height + 1 = 0, not at
    diagIdx - width + 1 = 1: it repeats the cells (1,0) and (0,1), and the
    cells (0,2) and (1,2), which hold 5 and 6, are never read. *)
Theorem Grid2D_antiDiagonals_3x2 :
  ∃ g, parsed_3x2 = Some g ∧
    Grid2D.height g = 3 ∧ Grid2D.width g = 2 ∧
    Grid2D.diagonals g = [[val 5]; [val 3; val 6]; [val 1; val 4]; [val 2]] ∧
    Grid2D.antiDiagonals g = [[val 1]; [val 2; val 3]; [val 2; val 3]; [val 4]] ∧
    mjoin (Grid2D.antiDiagonalPoints g) =
      [(0, 0); (1, 0); (0, 1); (1, 0); (0, 1); (1, 1)] ∧
    (0, 2) ∈ Grid2D.cells g ∧
    ¬ (mjoin (Grid2D.antiDiagonalPoints g) ≡ₚ Grid2D.cells g).
Proof.
  eexists. split; [by vm_compute|].
  do 5 (split; [by vm_compute|]).
  assert (Hin : ∀ g : Grid2D.t Z, Grid2D.height g = 3 → Grid2D.width g = 2 →
                                  (0, 2) ∈ Grid2D.cells g).
  { intros g Hh Hw. apply Grid2D_elem_of_cells. lia. }
  split; [by apply Hin|].
  match goal with
  | |- ¬ (_ ≡ₚ Grid2D.cells ?g) => specialize (Hin g eq_refl eq_refl)
  end.
  intros HP.
  rewrite <- HP in Hin. vm_compute in Hin.
  repeat (apply elem_of_cons in Hin as [Hin|Hin]; [discriminate|]).
  inversion Hin.
Qed.

(** ** Grid2D: adjacency *)

Section Grid2DAdjacent.
Context {T : Type}.
Implicit Types (g : Grid2D.t T) (x y : Z).

Lemma Grid2D_adjacent_filter g x y :
  0 ≤ x < Grid2D.width g → 0 ≤ y < Grid2D.height g →
  Grid2D.adjacent g x y = filter (Grid2D.in_rect g) (Grid2D.neighbours x y).
Proof.
  intros Hx Hy. unfold Grid2D.adjacent, Grid2D.neighbours.
  rewrite !filter_cons, filter_nil. unfold Grid2D.in_rect. simpl.
  destruct (x >? 0) eqn:E1; destruct (x <? Grid2D.width g - 1) eqn:E2;
    destruct (y >? 0) eqn:E3; destruct (y <? Grid2D.height g - 1) eqn:E4;
    repeat case_decide; simpl; try reflexivity; lia.
Qed.

(** C6, as the code has it.  For in-range (x, y), [adjacent(x, y)] is the
    list left, right, up, down with the neighbours outside the rectangle
    left out, so it holds in-range coordinates only; it has 4 points at an
    interior cell, and 2 at a corner cell of a grid that is at least 2 wide
    and 2 high. *)
Theorem Grid2D_adjacent_spec g x y :
  0 ≤ x < Grid2D.width g → 0 ≤ y < Grid2D.height g →
  Grid2D.adjacent g x y = filter (Grid2D.in_rect g) (Grid2D.neighbours x y) ∧
  (∀ pt, pt ∈ Grid2D.adjacent g x y → Grid2D.in_rect g pt) ∧
  (Grid2D.is_interior g x y →
   Grid2D.adjacent g x y = [(x - 1, y); (x + 1, y); (x, y - 1); (x, y + 1)]) ∧
  (Grid2D.is_corner g x y → 2 ≤ Grid2D.width g → 2 ≤ Grid2D.height g →
   length (Grid2D.adjacent g x y) = 2%nat).
Proof.
  intros Hx Hy. split; [by apply Grid2D_adjacent_filter|]. split; [|split].
  - intros pt. rewrite Grid2D_adjacent_filter by done.
    rewrite list_elem_of_filter. by intros [? _].
  - intros [Hix Hiy]. unfold Grid2D.adjacent.
    destruct (x >? 0) eqn:E1; [|lia].
    destruct (x <? Grid2D.width g - 1) eqn:E2; [|lia].
    destruct (y >? 0) eqn:E3; [|lia].
    destruct (y <? Grid2D.height g - 1) eqn:E4; [|lia]. done.
  - intros [Hcx Hcy] Hw Hh. unfold Grid2D.adjacent.
    destruct (x >? 0) eqn:E1; destruct (x <? Grid2D.width g - 1) eqn:E2;
      destruct (y >? 0) eqn:E3; destruct (y <? Grid2D.height g - 1) eqn:E4;
      simpl; try reflexivity; lia.
Qed.

End Grid2DAdjacent.

(** C6, as stated, fails: the only cell of a 1 by 1 grid is a corner cell,
    and it has no neighbour. *)
Lemma Grid2D_adjacent_corner_1x1 :
  let g := Grid2D.constructor 1 1 zero in
  Grid2D.in_rect g (0, 0) ∧ Grid2D.is_corner g 0 0 ∧
  length (Grid2D.adjacent g 0 0) ≠ 2%nat.
Proof.
  simpl. unfold Grid2D.in_rect, Grid2D.is_corner. simpl.
  split; [lia|]. split; [lia|]. discriminate.
Qed.

Lemma Grid2D_adjacent_spec_witness :
  let g := Grid2D.constructor 3 3 zero in
  Grid2D.adjacent g 1 1 = [(0, 1); (2, 1); (1, 0); (1, 2)] ∧
  length (Grid2D.adjacent g 0 2) = 2%nat.
Proof.
  intros g.
  destruct (Grid2D_adjacent_spec g 1 1) as (_ & _ & Hint & _);
    [simpl; lia | simpl; lia |].
  destruct (Grid2D_adjacent_spec g 0 2) as (_ & _ & _ & Hcor);
    [simpl; lia | simpl; lia |].
  split.
  - apply Hint. unfold Grid2D.is_interior. simpl. lia.
  - apply Hcor; [unfold Grid2D.is_corner; simpl; lia | simpl; lia | simpl; lia].
Defined.

(** ** Grid2D: incrementLine on a line of four cells *)

(** C7, as the code has it.  [incrementLine(0, 0, 0, 3)] steps along y: on a
    zero-filled grid of height 4 and width 1 it increments the cells (0,0),
    (0,1), (0,2), (0,3), at indices 0, 4, 8, 12 of the store, by 1 each.
    The row (0,0) .. (3,0) of a zero-filled grid of height 1 and width 4 is
    what [incrementLine(0, 0, 3, 0)] increments.  In both cases nothing else
    in the grid changes. *)
Theorem Grid2D_incrementLine_four_cells :
  Grid2D.incrementLine (Grid2D.constructor 4 1 zero) 0 0 0 3 =
    Grid2D.mk 4 1 16 4
      (mkArray (elem <$> [one; zero; zero; zero; one; zero; zero; zero;
                          one; zero; zero; zero; one; zero; zero; zero]) ∅) ∧
  (Grid2D.get (Grid2D.incrementLine (Grid2D.constructor 4 1 zero) 0 0 0 3) 0
     <$> [0; 1; 2; 3]) = [one; one; one; one] ∧
  Grid2D.incrementLine (Grid2D.constructor 1 4 zero) 0 0 3 0 =
    Grid2D.mk 1 4 16 4
      (mkArray (elem <$> [one; one; one; one; zero; zero; zero; zero;
                          zero; zero; zero; zero; zero; zero; zero; zero]) ∅) ∧
  ((fun x => Grid2D.get (Grid2D.incrementLine (Grid2D.constructor 1 4 zero) 0 0 3 0) x 0)
     <$> [0; 1; 2; 3]) = [one; one; one; one].
Proof. vm_compute. done. Qed.

(** C7, as stated, fails, whichever of the two dimensions of the 4 by 1 grid
    is its width: after [incrementLine(0, 0, 0, 3)] the cell (1, 0) does not
    hold 1. *)
Lemma Grid2D_incrementLine_0003_not_row :
  ¬ (∀ x, 0 ≤ x ≤ 3 →
       Grid2D.get (Grid2D.incrementLine (Grid2D.constructor 1 4 zero) 0 0 0 3) x 0 = one) ∧
  ¬ (∀ x, 0 ≤ x ≤ 3 →
       Grid2D.get (Grid2D.incrementLine (Grid2D.constructor 4 1 zero) 0 0 0 3) x 0 = one).
Proof.
  split; intros H; specialize (H 1 ltac:(lia)); vm_compute in H; discriminate.
Qed.

(** ** Grid2D: find when nothing matches *)

Section Grid2DFind.
Context {T : Type}.
Implicit Types (g : Grid2D.t T) (p : jsval T → bool).

Lemma findIndex_from_none p (l : list (slot T)) (i : Z) :
  (∀ s, s ∈ l → p (slot_val s) = false) → Arr.findIndex_from p l i = -1.
Proof.
  revert i. induction l as [|s l IH]; intros i Hall; simpl; [done|].
  rewrite (Hall s) by apply list_elem_of_here.
  apply IH. intros s' Hs'. apply Hall. by apply list_elem_of_further.
Qed.

Lemma div_minus_one (o : Z) : 0 < o → -1 / o = -1.
Proof.
  intros Ho. symmetry. apply (Z.div_unique_pos (-1) o (-1) (o - 1)); lia.
Qed.

(** C9.  On a grid of positive dimensions, when no element of the backing
    store satisfies the predicate, [find] returns the point
    (max(width, height) - 1, -1): the coordinates computed from index -1. *)
Theorem Grid2D_find_no_match g p :
  Grid2D.layout g → 0 < Grid2D.width g → 0 < Grid2D.height g →
  (∀ s, s ∈ elems (Grid2D.data g) → p (slot_val s) = false) →
  Grid2D.find g p = (Z.max (Grid2D.width g) (Grid2D.height g) - 1, -1).
Proof.
  intros (Ho & _) Hw Hh Hnone. unfold Grid2D.find, Arr.findIndex.
  rewrite findIndex_from_none by done.
  rewrite div_minus_one by lia. f_equal. lia.
Qed.

End Grid2DFind.

Lemma Grid2D_find_no_match_witness :
  Grid2D.find (Grid2D.constructor 2 3 (val 1)) is_zero = (2, -1).
Proof.
  apply (Grid2D_find_no_match (Grid2D.constructor 2 3 (val 1)) is_zero).
  - apply Grid2D_constructor_layout.
  - simpl; lia.
  - simpl; lia.
  - intros s Hs. vm_compute in Hs.
    repeat (apply elem_of_cons in Hs as [->|Hs]; [reflexivity|]).
    inversion Hs.
Defined.

(** ** Grid3D: addressing *)

Section Grid3DAddress.
Implicit Types (g : Grid3D.t) (x y z : Z) (v : jsval number).

Lemma Grid3D_constructor_layout (h w d : Z) (fill : number) :
  Grid3D.layout (Grid3D.constructor h w d fill).
Proof. by split. Qed.

Lemma Grid3D_set_layout g x y z v :
  Grid3D.layout g → Grid3D.layout (Grid3D.set g x y z v).
Proof. by intros [? ?]. Qed.

Lemma Grid3D_increment_layout g x y z :
  Grid3D.layout g → Grid3D.layout (Grid3D.increment g x y z).
Proof. by intros [? ?]. Qed.

Lemma Grid3D_get_address g x y z :
  Grid3D.layout g →
  Grid3D.get g x y z = Arr.get (Grid3D.data g) (Grid3D.address g x y z).
Proof. intros [Hy Hz]. unfold Grid3D.get, Grid3D.address. by rewrite Hy, Hz. Qed.

Lemma Grid3D_set_address g x y z v :
  Grid3D.layout g →
  Grid3D.set g x y z v =
  Grid3D.with_data g (Arr.set (Grid3D.data g) (Grid3D.address g x y z) v).
Proof. intros [Hy Hz]. unfold Grid3D.set, Grid3D.address. by rewrite Hy, Hz. Qed.

(** C8, as the code has it.  The comma expression yields its last operand, so
    [increment(x, y, z)] increments the store at index z * (height * width),
    whatever x and y are, whereas [get] and [set] address
    x + y * height + z * (height * width). *)
Theorem Grid3D_increment_address g x y z v :
  Grid3D.layout g →
  Grid3D.increment g x y z =
    Grid3D.with_data g
      (Arr.set (Grid3D.data g) (z * (Grid3D.height g * Grid3D.width g))
         (plus_plus (Arr.get (Grid3D.data g)
                       (z * (Grid3D.height g * Grid3D.width g))))) ∧
  Grid3D.get g x y z =
    Arr.get (Grid3D.data g)
      (x + y * Grid3D.height g + z * (Grid3D.height g * Grid3D.width g)) ∧
  Grid3D.set g x y z v =
    Grid3D.with_data g
      (Arr.set (Grid3D.data g)
         (x + y * Grid3D.height g + z * (Grid3D.height g * Grid3D.width g)) v).
Proof.
  intros Hlay. split; [|split].
  - destruct Hlay as [_ Hz]. unfold Grid3D.increment, comma. by rewrite Hz.
  - by apply Grid3D_get_address.
  - by apply Grid3D_set_address.
Qed.

(** C10, as the code has it.  When 2 <= height < width and depth >= 1, the
    in-range coordinates (0, 1, 0) and (height, 0, 0) are distinct and have
    the same linear address, so [set] at the first changes what [get] returns
    at the second. *)
Theorem Grid3D_address_collides g v :
  Grid3D.layout g →
  2 ≤ Grid3D.height g → Grid3D.height g < Grid3D.width g → 1 ≤ Grid3D.depth g →
  Grid3D.in_box g 0 1 0 ∧ Grid3D.in_box g (Grid3D.height g) 0 0 ∧
  (0, 1, 0) ≠ (Grid3D.height g, 0, 0) ∧
  Grid3D.address g 0 1 0 = Grid3D.address g (Grid3D.height g) 0 0 ∧
  Grid3D.get (Grid3D.set g 0 1 0 v) (Grid3D.height g) 0 0 = v.
Proof.
  intros Hlay Hh Hw Hd.
  assert (Haddr : Grid3D.address g 0 1 0 = Grid3D.address g (Grid3D.height g) 0 0).
  { unfold Grid3D.address. lia. }
  unfold Grid3D.in_box. split; [lia|]. split; [lia|]. split; [congruence|].
  split; [done|].
  rewrite Grid3D_get_address by by apply Grid3D_set_layout.
  rewrite Grid3D_set_address by done.
  change (Grid3D.address (Grid3D.with_data g ?d)) with (Grid3D.address g).
  simpl. rewrite Haddr. apply Arr_get_set_eq.
Qed.

End Grid3DAddress.

(** C8, as stated, fails: on a zero-filled 2 by 2 by 2 grid,
    [increment(1, 0, 1)] leaves the cell at index x + y * height = 1 at 0 and
    increments the cell at index z * (height * width) = 4. *)
Lemma Grid3D_increment_not_xy :
  let g := Grid3D.constructor 2 2 2 (num 0) in
  let i := 1 + 0 * Grid3D.height g in
  Grid3D.data (Grid3D.increment g 1 0 1) ≠
    Arr.set (Grid3D.data g) i (plus_plus (Arr.get (Grid3D.data g) i)) ∧
  Arr.get (Grid3D.data (Grid3D.increment g 1 0 1)) i = zero ∧
  Arr.get (Grid3D.data (Grid3D.increment g 1 0 1)) 4 = one.
Proof.
  split; [|by vm_compute].
  intros H. apply (f_equal elems) in H. vm_compute in H. discriminate.
Qed.

Lemma Grid3D_increment_address_witness :
  let g := Grid3D.constructor 2 2 2 (num 0) in
  Grid3D.increment g 1 0 1 =
    Grid3D.with_data g
      (Arr.set (Grid3D.data g) (1 * (2 * 2))
         (plus_plus (Arr.get (Grid3D.data g) (1 * (2 * 2))))).
Proof.
  intros g. apply (Grid3D_increment_address g 1 0 1 zero).
  apply Grid3D_constructor_layout.
Defined.

(** C10, as stated, fails: a grid of height 1, width 2 and depth 1 has
    width > height, and its two in-range coordinates have distinct
    addresses. *)
Lemma Grid3D_address_injective_1x2x1 :
  let g := Grid3D.constructor 1 2 1 (num 0) in
  Grid3D.width g > Grid3D.height g ∧
  ∀ x y z x' y' z',
    Grid3D.in_box g x y z → Grid3D.in_box g x' y' z' →
    Grid3D.address g x y z = Grid3D.address g x' y' z' →
    (x, y, z) = (x', y', z').
Proof.
  simpl. split; [lia|].
  unfold Grid3D.in_box, Grid3D.address. simpl.
  intros x y z x' y' z' (? & ? & ?) (? & ? & ?) Heq.
  assert (x = x') by lia. assert (y = y') by lia. assert (z = z') by lia.
  congruence.
Qed.

(** The claim's example: in Grid3D(height = 2, width = 3, depth = 1),
    [set(0, 1, 0, v)] makes [get(2, 0, 0)] return [v]. *)
Lemma Grid3D_address_collides_witness :
  let g := Grid3D.constructor 2 3 1 (num 0) in
  Grid3D.get (Grid3D.set g 0 1 0 one) 2 0 0 = one.
Proof.
  intros g. apply (Grid3D_address_collides g one).
  - apply Grid3D_constructor_layout.
  - simpl; lia.
  - simpl; lia.
  - simpl; lia.
Defined.

(** * Further properties *)

(** ** Grid2D: rows and columns *)

Section Grid2DViews.
Context {T : Type}.
Implicit Types (g : Grid2D.t T) (v : jsval T) (x y : Z).

Lemma lookup_fmap_seqZ {B : Type} (f : Z → B) (n k : Z) :
  0 ≤ k < n → (f <$> seqZ 0 n) !! Z.to_nat k = Some (f k).
Proof.
  intros Hk. rewrite list_lookup_fmap, lookup_seqZ_lt by lia.
  simpl. do 2 f_equal. lia.
Qed.

(** X1.  For positive dimensions [horizontals()] has one entry per row, each
    of [width] values, and entry y holds [get(x, y)] at position x. *)
Theorem Grid2D_horizontals_spec g :
  0 < Grid2D.width g → 0 < Grid2D.height g →
  length (Grid2D.horizontals g) = Z.to_nat (Grid2D.height g) ∧
  ∀ y, 0 ≤ y < Grid2D.height g →
    ∃ row, Grid2D.horizontals g !! Z.to_nat y = Some row ∧
           length row = Z.to_nat (Grid2D.width g) ∧
           ∀ x, 0 ≤ x < Grid2D.width g →
                row !! Z.to_nat x = Some (Grid2D.get g x y).
Proof.
  intros Hw Hh. unfold Grid2D.horizontals. rewrite !range_0. split.
  - by rewrite length_fmap, length_seqZ.
  - intros y Hy. eexists. split; [by apply lookup_fmap_seqZ|]. split.
    + by rewrite length_fmap, length_seqZ.
    + intros x Hx. by rewrite lookup_fmap_seqZ.
Qed.

(** X2.  For positive dimensions [verticals()] has one entry per column,
    each of [height] values, and entry x holds [get(x, y)] at position y: it
    is the transpose of [horizontals()]. *)
Theorem Grid2D_verticals_spec g :
  0 < Grid2D.width g → 0 < Grid2D.height g →
  length (Grid2D.verticals g) = Z.to_nat (Grid2D.width g) ∧
  ∀ x, 0 ≤ x < Grid2D.width g →
    ∃ col, Grid2D.verticals g !! Z.to_nat x = Some col ∧
           length col = Z.to_nat (Grid2D.height g) ∧
           ∀ y, 0 ≤ y < Grid2D.height g →
                col !! Z.to_nat y = Some (Grid2D.get g x y) ∧
                ∃ row, Grid2D.horizontals g !! Z.to_nat y = Some row ∧
                       row !! Z.to_nat x = col !! Z.to_nat y.
Proof.
  intros Hw Hh. unfold Grid2D.verticals, Grid2D.horizontals. rewrite !range_0. split.
  - by rewrite length_fmap, length_seqZ.
  - intros x Hx. eexists. split; [by apply lookup_fmap_seqZ|]. split.
    + by rewrite length_fmap, length_seqZ.
    + intros y Hy. split; [by rewrite lookup_fmap_seqZ|].
      eexists. split; [by apply lookup_fmap_seqZ|].
      by rewrite !lookup_fmap_seqZ.
Qed.

End Grid2DViews.

Lemma Grid2D_horizontals_spec_witness :
  length (Grid2D.horizontals (Grid2D.constructor 2 3 zero)) = 2%nat.
Proof.
  apply (Grid2D_horizontals_spec (Grid2D.constructor 2 3 zero)); simpl; lia.
Defined.

Lemma Grid2D_verticals_spec_witness :
  length (Grid2D.verticals (Grid2D.constructor 2 3 zero)) = 3%nat.
Proof.
  apply (Grid2D_verticals_spec (Grid2D.constructor 2 3 zero)); simpl; lia.
Defined.

(** ** Grid2D: sequences of writes, and parse *)

Section Grid2DWrites.
Context {T : Type}.
Implicit Types (g : Grid2D.t T) (v : jsval T) (x y : Z) (pt : Point).

Lemma Grid2D_set_fields g x y v :
  Grid2D.height (Grid2D.set g x y v) = Grid2D.height g ∧
  Grid2D.width (Grid2D.set g x y v) = Grid2D.width g ∧
  Grid2D.size (Grid2D.set g x y v) = Grid2D.size g ∧
  Grid2D.offset (Grid2D.set g x y v) = Grid2D.offset g.
Proof.
  unfold Grid2D.set. destruct (_ || _); [done|]. by destruct (_ || _).
Qed.

Lemma Grid2D_get_set_same g x y v :
  0 ≤ x < Grid2D.width g → 0 ≤ y < Grid2D.height g →
  Grid2D.get (Grid2D.set g x y v) x y = v.
Proof.
  intros Hx Hy. rewrite Grid2D_set_in by done.
  rewrite Grid2D_get_in by done. simpl. apply Arr_get_set_eq.
Qed.

Lemma Grid2D_get_set_other g x y v x' y' :
  Grid2D.offset g = Z.max (Grid2D.height g) (Grid2D.width g) →
  0 ≤ x' < Grid2D.width g → 0 ≤ y' < Grid2D.height g →
  (x', y') ≠ (x, y) →
  Grid2D.get (Grid2D.set g x y v) x' y' = Grid2D.get g x' y'.
Proof.
  intros Ho Hx' Hy' Hne.
  destruct (decide (0 ≤ x < Grid2D.width g ∧ 0 ≤ y < Grid2D.height g)) as [[Hx Hy]|Hout].
  - rewrite Grid2D_set_in by done. rewrite !Grid2D_get_in by done. simpl.
    apply Arr_get_set_ne. intros Heq.
    apply Grid2D_index_inj in Heq; [|done..]. destruct Heq; congruence.
  - rewrite Grid2D_set_out; [done|lia].
Qed.

Lemma foldl_nested {A : Type} (h : A → Z → Z → A) (xs ys : list Z) (a : A) :
  foldl (fun a y => foldl (fun a x => h a x y) a xs) a ys =
  foldl (fun a pt => h a pt.1 pt.2) a (ys ≫= fun y => (fun x => (x, y)) <$> xs).
Proof.
  revert a. induction ys as [|y ys IH]; intros a; [done|].
  rewrite bind_cons, foldl_app, foldl_fmap. simpl. apply IH.
Qed.

Lemma Grid2D_foldl_set_fields (f : Point → jsval T) (pts : list Point) g :
  let g' := foldl (fun g pt => Grid2D.set g pt.1 pt.2 (f pt)) g pts in
  Grid2D.height g' = Grid2D.height g ∧ Grid2D.width g' = Grid2D.width g ∧
  Grid2D.offset g' = Grid2D.offset g ∧ (Grid2D.layout g → Grid2D.layout g').
Proof.
  revert g. induction pts as [|pt pts IH]; intros g; simpl; [done|].
  destruct (IH (Grid2D.set g pt.1 pt.2 (f pt))) as (Hh & Hw & Ho & Hl).
  destruct (Grid2D_set_fields g pt.1 pt.2 (f pt)) as (Hh' & Hw' & _ & Ho').
  split_and!; try congruence.
  intros Hlay. by apply Hl, Grid2D_set_layout.
Qed.

Lemma Grid2D_get_foldl_set (f : Point → jsval T) (pts : list Point) g x y :
  Grid2D.offset g = Z.max (Grid2D.height g) (Grid2D.width g) →
  0 ≤ x < Grid2D.width g → 0 ≤ y < Grid2D.height g →
  Grid2D.get (foldl (fun g pt => Grid2D.set g pt.1 pt.2 (f pt)) g pts) x y =
  if decide ((x, y) ∈ pts) then f (x, y) else Grid2D.get g x y.
Proof.
  revert g. induction pts as [|[px py] pts IH]; intros g Ho Hx Hy; cbn [foldl].
  - rewrite decide_False; [done|]. intros Hin. inversion Hin.
  - destruct (Grid2D_set_fields g px py (f (px, py))) as (Hh' & Hw' & _ & Ho').
    cbn [fst snd]. rewrite IH by congruence.
    destruct (decide ((x, y) ∈ pts)) as [Hin|Hnin].
    + rewrite decide_True; [done|by apply list_elem_of_further].
    + destruct (decide ((x, y) = (px, py))) as [Heq|Hne].
      * injection Heq as -> ->.
        rewrite decide_True by apply list_elem_of_here.
        by apply Grid2D_get_set_same.
      * rewrite decide_False.
        { by apply Grid2D_get_set_other. }
        { intros [?|?]%elem_of_cons; done. }
Qed.

Lemma Grid2D_parse_cons (row0 : list T) (rest : list (list T)) :
  ∃ g, Grid2D.parse (row0 :: rest) = Some g ∧
       Grid2D.height g = Z.of_nat (length (row0 :: rest)) ∧
       Grid2D.width g = Z.of_nat (length row0) ∧
       Grid2D.layout g ∧
       ∀ x y, 0 ≤ x < Grid2D.width g → 0 ≤ y < Grid2D.height g →
              Grid2D.get g x y = Grid2D.input_at (row0 :: rest) x y.
Proof.
  eexists. split; [reflexivity|].
  set (input := row0 :: rest).
  set (g0 := Grid2D.constructor (Z.of_nat (length input)) (Z.of_nat (length row0))
                                (@undefined T)).
  rewrite (foldl_nested (fun grid x y => Grid2D.set grid x y (Grid2D.input_at input x y))).
  set (pts := seqZ 0 (Z.of_nat (length input)) ≫= _).
  destruct (Grid2D_foldl_set_fields
              (fun pt => Grid2D.input_at input pt.1 pt.2) pts g0) as (Hh & Hw & Ho & Hl).
  split; [exact Hh|]. split; [exact Hw|].
  split; [apply Hl, Grid2D_constructor_layout|].
  intros x y Hx Hy.
  rewrite (Grid2D_get_foldl_set (fun pt => Grid2D.input_at input pt.1 pt.2)).
  - rewrite decide_True; [done|].
    rewrite Hh in Hy. rewrite Hw in Hx.
    change (Grid2D.height g0) with (Z.of_nat (length input)) in Hy.
    change (Grid2D.width g0) with (Z.of_nat (length row0)) in Hx.
    unfold pts. apply list_elem_of_bind. exists y. split.
    + apply list_elem_of_fmap. exists x. split; [done|]. apply elem_of_seqZ. lia.
    + apply elem_of_seqZ. lia.
  - apply Grid2D_constructor_layout.
  - by rewrite <- Hw.
  - by rewrite <- Hh.
Qed.

(** X3.  [parse] fails on the empty input.  On any other input it builds a
    grid with one row per input row and the width of the first row, in the
    constructor's layout, whose cell (x, y) holds [input[y][x]]: a row
    shorter than the first leaves [undefined] cells, and what a longer row
    holds past the first row's length is dropped. *)
Theorem Grid2D_parse_spec :
  Grid2D.parse (@nil (list T)) = None ∧
  ∀ (row0 : list T) (rest : list (list T)),
    ∃ g, Grid2D.parse (row0 :: rest) = Some g ∧
         Grid2D.height g = Z.of_nat (length (row0 :: rest)) ∧
         Grid2D.width g = Z.of_nat (length row0) ∧
         Grid2D.layout g ∧
         ∀ x y, 0 ≤ x < Grid2D.width g → 0 ≤ y < Grid2D.height g →
                Grid2D.get g x y = Grid2D.input_at (row0 :: rest) x y.
Proof. split; [done|]. apply Grid2D_parse_cons. Qed.

(** X4.  Parsing a rectangular input with non-empty rows and reading the
    rows back returns the input: [horizontals(parse(input)) = input]. *)
Theorem Grid2D_parse_horizontals (input : list (list T)) (row0 : list T) :
  head input = Some row0 → row0 ≠ [] →
  Forall (fun row => length row = length row0) input →
  ∃ g, Grid2D.parse input = Some g ∧
       Grid2D.horizontals g = (fun row : list T => val <$> row) <$> input.
Proof.
  intros Hhead Hne Hrect.
  destruct input as [|r rest]; [done|]. injection Hhead as ->.
  destruct (Grid2D_parse_cons row0 rest) as (g & Hg & Hh & Hw & _ & Hget).
  exists g. split; [done|].
  assert (0 < length row0)%nat by (destruct row0; [done|simpl; lia]).
  unfold Grid2D.horizontals. rewrite !range_0.
  apply list_eq. intros i. rewrite !list_lookup_fmap.
  destruct ((row0 :: rest) !! i) as [row|] eqn:Hrow.
  - assert (Hi : (i < length (row0 :: rest))%nat) by (by eapply lookup_lt_Some).
    rewrite lookup_seqZ_lt by lia. simpl.
    f_equal. apply list_eq. intros j. rewrite !list_lookup_fmap.
    assert (Hlen : length row = length row0).
    { eapply (proj1 (Forall_forall _ _) Hrect), list_elem_of_lookup_2, Hrow. }
    destruct (row !! j) as [t|] eqn:Ht.
    + assert (Hj : (j < length row)%nat) by (by eapply lookup_lt_Some).
      rewrite lookup_seqZ_lt by lia. simpl. f_equal.
      rewrite Hget by lia. unfold Grid2D.input_at.
      rewrite !Z.add_0_l, !Nat2Z.id. by rewrite Hrow, Ht.
    + apply lookup_ge_None in Ht.
      rewrite lookup_seqZ_ge by lia. done.
  - apply lookup_ge_None in Hrow.
    rewrite lookup_seqZ_ge by lia. done.
Qed.

End Grid2DWrites.

Lemma Grid2D_parse_horizontals_witness :
  ∃ g, Grid2D.parse [[1; 2]; [3; 4]; [5; 6]] = Some g ∧
       Grid2D.horizontals g = [[val 1; val 2]; [val 3; val 4]; [val 5; val 6]].
Proof.
  apply (Grid2D_parse_horizontals [[1; 2]; [3; 4]; [5; 6]] [1; 2]).
  - reflexivity.
  - discriminate.
  - repeat constructor.
Defined.

(** ** Grid2D: writes stay inside the store *)

Section Grid2DStore.
Context {T : Type}.
Implicit Types (g : Grid2D.t T) (v : jsval T) (x y : Z) (a : jsarray T).

Lemma Arr_set_in_range a i v :
  0 ≤ i < Arr.length a →
  Arr.set a i v = mkArray (<[Z.to_nat i := elem v]> (elems a)) (props a).
Proof.
  intros Hi. unfold Arr.set.
  destruct (i <? 0) eqn:E1; [lia|].
  destruct (i <? Arr.length a) eqn:E2; [done|lia].
Qed.

Lemma Grid2D_index_in_store g x y :
  Grid2D.layout g →
  0 ≤ x < Grid2D.width g → 0 ≤ y < Grid2D.height g →
  0 ≤ x + y * Grid2D.offset g < Arr.length (Grid2D.data g).
Proof.
  intros (Ho & Hs & Hl) Hx Hy.
  assert (x ≤ Grid2D.offset g - 1) by lia.
  assert (y ≤ Grid2D.offset g - 1) by lia.
  nia.
Qed.

(** X5.  On a grid in the constructor's layout, writes to in-range cells
    never grow the store; the last write to a cell wins, and writes to
    distinct cells commute. *)
Theorem Grid2D_set_set g x y v1 v2 :
  Grid2D.layout g →
  0 ≤ x < Grid2D.width g → 0 ≤ y < Grid2D.height g →
  Arr.length (Grid2D.data (Grid2D.set g x y v1)) = Arr.length (Grid2D.data g) ∧
  props (Grid2D.data (Grid2D.set g x y v1)) = props (Grid2D.data g) ∧
  Grid2D.set (Grid2D.set g x y v1) x y v2 = Grid2D.set g x y v2 ∧
  ∀ x' y', 0 ≤ x' < Grid2D.width g → 0 ≤ y' < Grid2D.height g →
           (x', y') ≠ (x, y) →
           Grid2D.set (Grid2D.set g x y v1) x' y' v2 =
           Grid2D.set (Grid2D.set g x' y' v2) x y v1.
Proof.
  intros Hlay Hx Hy.
  pose proof (Grid2D_index_in_store g x y Hlay Hx Hy) as Hi.
  assert (Hlen : ∀ i w, 0 ≤ i < Arr.length (Grid2D.data g) →
             Arr.length (Arr.set (Grid2D.data g) i w) = Arr.length (Grid2D.data g)).
  { intros i w Hiw. rewrite Arr_set_in_range by done.
    unfold Arr.length. simpl. by rewrite length_insert. }
  rewrite (Grid2D_set_in g x y v1) by done. simpl.
  split; [by apply Hlen|]. split; [by rewrite Arr_set_in_range|]. split.
  - rewrite !Grid2D_set_in by done. simpl. f_equal.
    rewrite (Arr_set_in_range (Grid2D.data g)) by done.
    rewrite Arr_set_in_range by (unfold Arr.length; simpl; by rewrite length_insert).
    rewrite Arr_set_in_range by done. simpl.
    by rewrite list_insert_insert_eq.
  - intros x' y' Hx' Hy' Hne.
    pose proof (Grid2D_index_in_store g x' y' Hlay Hx' Hy') as Hi'.
    rewrite (Grid2D_set_in g x' y' v2) by done.
    rewrite !Grid2D_set_in by done. simpl. f_equal.
    rewrite !(Arr_set_in_range (Grid2D.data g)) by done.
    rewrite !Arr_set_in_range by (unfold Arr.length; simpl; by rewrite length_insert).
    simpl. f_equal. apply list_insert_insert_ne.
    intros Heq. apply Hne.
    destruct Hlay as (Ho & _).
    destruct (Grid2D_index_inj g x y x' y' Ho Hx Hx') as [-> ->]; [lia|done].
Qed.

End Grid2DStore.

Lemma Grid2D_set_set_witness :
  let g := Grid2D.constructor 2 3 zero in
  Grid2D.set (Grid2D.set g 2 1 one) 2 1 zero = Grid2D.set g 2 1 zero.
Proof.
  intros g. apply (Grid2D_set_set g 2 1 one zero).
  - apply Grid2D_constructor_layout.
  - simpl; lia.
  - simpl; lia.
Defined.

(** ** Grid2D: increment and incrementLine *)

Section Grid2DIncrement.
Implicit Types (g : Grid2D.t number) (x y : Z) (pt : Point).

Lemma Grid2D_get_increment_same g x y :
  0 ≤ x < Grid2D.width g → 0 ≤ y < Grid2D.height g →
  Grid2D.get (Grid2D.increment g x y) x y = plus_plus (Grid2D.get g x y).
Proof.
  intros Hx Hy. rewrite (Grid2D_get_in g) by done.
  unfold Grid2D.increment. rewrite Grid2D_get_in by done. simpl.
  apply Arr_get_set_eq.
Qed.

Lemma Grid2D_get_increment_other g x y x' y' :
  Grid2D.offset g = Z.max (Grid2D.height g) (Grid2D.width g) →
  0 ≤ x < Grid2D.width g →
  0 ≤ x' < Grid2D.width g → 0 ≤ y' < Grid2D.height g →
  (x', y') ≠ (x, y) →
  Grid2D.get (Grid2D.increment g x y) x' y' = Grid2D.get g x' y'.
Proof.
  intros Ho Hx Hx' Hy' Hne. rewrite (Grid2D_get_in g) by done.
  unfold Grid2D.increment. rewrite Grid2D_get_in by done. simpl.
  apply Arr_get_set_ne. intros Heq.
  apply Grid2D_index_inj in Heq; [|done..]. destruct Heq; congruence.
Qed.

Lemma round_double_small (n : Z) : -two53 ≤ n ≤ two53 → round_double n = n.
Proof.
  intros Hn. unfold round_double.
  destruct (Z.abs n <? two53) eqn:E; [done|].
  apply Z.ltb_ge in E.
  assert (Hcases : n = two53 ∨ n = -two53) by lia.
  destruct Hcases as [-> | ->]; by vm_compute.
Qed.

(** X6.  [increment(x, y)] at an in-range cell stores the double sum of what
    the cell held and 1: z + 1 where it held an integer z with
    -2^53 <= z < 2^53, 2^53 again where it held 2^53 (the sum rounds back),
    and NaN where it held [undefined].  It changes no other in-range cell,
    and neither the dimensions nor the stride. *)
Theorem Grid2D_increment_spec g x y :
  Grid2D.layout g →
  0 ≤ x < Grid2D.width g → 0 ≤ y < Grid2D.height g →
  Grid2D.get (Grid2D.increment g x y) x y = plus_plus (Grid2D.get g x y) ∧
  (∀ z, -two53 ≤ z < two53 → Grid2D.get g x y = val (num z) →
        Grid2D.get (Grid2D.increment g x y) x y = val (num (z + 1))) ∧
  (Grid2D.get g x y = val (num two53) →
   Grid2D.get (Grid2D.increment g x y) x y = val (num two53)) ∧
  (Grid2D.get g x y = undefined →
   Grid2D.get (Grid2D.increment g x y) x y = val NaN) ∧
  (∀ x' y', 0 ≤ x' < Grid2D.width g → 0 ≤ y' < Grid2D.height g →
            (x', y') ≠ (x, y) →
            Grid2D.get (Grid2D.increment g x y) x' y' = Grid2D.get g x' y') ∧
  Grid2D.layout (Grid2D.increment g x y).
Proof.
  intros Hlay Hx Hy. split; [|split; [|split; [|split; [|split]]]].
  - by apply Grid2D_get_increment_same.
  - intros z Hz Hget. rewrite Grid2D_get_increment_same by done.
    rewrite Hget. cbn [plus_plus]. rewrite round_double_small by lia. done.
  - intros Hget. rewrite Grid2D_get_increment_same by done.
    rewrite Hget. by vm_compute.
  - intros Hget. rewrite Grid2D_get_increment_same by done. by rewrite Hget.
  - intros x' y' Hx' Hy' Hne. destruct Hlay as (Ho & _).
    by apply Grid2D_get_increment_other.
  - by apply Grid2D_increment_layout.
Qed.

(** X7.  [increment] checks no bound: on a grid at least as wide as high,
    incrementing at x = width, one past the right edge of row y, increments
    the first cell of row y + 1. *)
Theorem Grid2D_increment_past_right_edge g y :
  Grid2D.layout g → 0 < Grid2D.width g → Grid2D.height g ≤ Grid2D.width g →
  0 ≤ y + 1 < Grid2D.height g →
  Grid2D.get (Grid2D.increment g (Grid2D.width g) y) 0 (y + 1) =
  plus_plus (Grid2D.get g 0 (y + 1)).
Proof.
  intros (Ho & _) Hw Hhw Hy.
  rewrite <- (Grid2D_get_increment_same g 0 (y + 1)) by lia.
  unfold Grid2D.increment.
  replace (Grid2D.width g + y * Grid2D.offset g)
    with (0 + (y + 1) * Grid2D.offset g) by lia.
  done.
Qed.

Lemma slope_cases (a b : Z) :
  (a = b ∧ Grid2D.slope a b = 0) ∨
  (a > b ∧ Grid2D.slope a b = -1) ∨
  (a < b ∧ Grid2D.slope a b = 1).
Proof.
  unfold Grid2D.slope.
  destruct (a =? b) eqn:E1; [apply Z.eqb_eq in E1; lia|].
  apply Z.eqb_neq in E1.
  destruct (a >? b) eqn:E2; lia.
Qed.

Lemma Grid2D_incrementLine_points g x1 y1 x2 y2 :
  Grid2D.incrementLine g x1 y1 x2 y2 =
  foldl (fun g pt => Grid2D.increment g pt.1 pt.2) g (Grid2D.linePoints x1 y1 x2 y2).
Proof. unfold Grid2D.incrementLine, Grid2D.linePoints. by rewrite foldl_fmap. Qed.

Lemma Grid2D_NoDup_linePoints x1 y1 x2 y2 :
  NoDup (Grid2D.linePoints x1 y1 x2 y2).
Proof.
  unfold Grid2D.linePoints. apply NoDup_fmap_2_strong; [|apply NoDup_seqZ].
  intros i1 i2 Hi1 Hi2 Heq.
  apply elem_of_seqZ in Hi1, Hi2. injection Heq as Hx Hy.
  destruct (slope_cases x1 x2) as [[? Hs]|[[? Hs]|[? Hs]]];
    destruct (slope_cases y1 y2) as [[? Ht]|[[? Ht]|[? Ht]]];
    rewrite Hs in Hx; rewrite Ht in Hy; lia.
Qed.

Lemma Grid2D_get_foldl_increment (pts : list Point) g x y :
  Grid2D.offset g = Z.max (Grid2D.height g) (Grid2D.width g) →
  NoDup pts → Forall (Grid2D.in_rect g) pts →
  0 ≤ x < Grid2D.width g → 0 ≤ y < Grid2D.height g →
  Grid2D.get (foldl (fun g pt => Grid2D.increment g pt.1 pt.2) g pts) x y =
  if decide ((x, y) ∈ pts) then plus_plus (Grid2D.get g x y) else Grid2D.get g x y.
Proof.
  revert g. induction pts as [|[px py] pts IH]; intros g Ho Hnd Hall Hx Hy; cbn [foldl].
  - rewrite decide_False; [done|]. intros Hin. inversion Hin.
  - apply NoDup_cons in Hnd as [Hnin Hnd].
    apply Forall_cons in Hall as [[Hpx Hpy] Hall]. cbn [fst snd] in *.
    rewrite IH; [|done..].
    destruct (decide ((x, y) ∈ pts)) as [Hin|Hnin'].
    + rewrite decide_True by (by apply list_elem_of_further).
      rewrite Grid2D_get_increment_other; [done..|].
      intros Heq. apply Hnin. by rewrite <- Heq.
    + destruct (decide ((x, y) = (px, py))) as [Heq|Hne].
      * injection Heq as -> ->.
        rewrite decide_True by apply list_elem_of_here.
        by apply Grid2D_get_increment_same.
      * rewrite decide_False by (intros [?|?]%elem_of_cons; done).
        by apply Grid2D_get_increment_other.
Qed.

(** X8.  When every point that [incrementLine] steps on is in range, the
    call increments each of these cells exactly once and changes no other
    in-range cell. *)
Theorem Grid2D_incrementLine_spec g x1 y1 x2 y2 :
  Grid2D.layout g →
  Forall (Grid2D.in_rect g) (Grid2D.linePoints x1 y1 x2 y2) →
  ∀ x y, 0 ≤ x < Grid2D.width g → 0 ≤ y < Grid2D.height g →
    Grid2D.get (Grid2D.incrementLine g x1 y1 x2 y2) x y =
    if decide ((x, y) ∈ Grid2D.linePoints x1 y1 x2 y2)
    then plus_plus (Grid2D.get g x y)
    else Grid2D.get g x y.
Proof.
  intros (Ho & _) Hall x y Hx Hy.
  rewrite Grid2D_incrementLine_points.
  apply Grid2D_get_foldl_increment; try done.
  apply Grid2D_NoDup_linePoints.
Qed.

Lemma last_seqZ_0 (n : Z) : 0 ≤ n → last (seqZ 0 (n + 1)) = Some n.
Proof.
  intros Hn. rewrite last_lookup, length_seqZ.
  rewrite lookup_seqZ_lt by lia. f_equal. lia.
Qed.

(** X9.  Between two in-range end points that lie on a common row, column
    or 45-degree diagonal, [incrementLine] steps on in-range cells only,
    starting at (x1, y1) and ending at (x2, y2). *)
Theorem Grid2D_linePoints_straight g x1 y1 x2 y2 :
  Grid2D.in_rect g (x1, y1) → Grid2D.in_rect g (x2, y2) →
  x1 = x2 ∨ y1 = y2 ∨ Z.abs (x1 - x2) = Z.abs (y1 - y2) →
  Forall (Grid2D.in_rect g) (Grid2D.linePoints x1 y1 x2 y2) ∧
  head (Grid2D.linePoints x1 y1 x2 y2) = Some (x1, y1) ∧
  last (Grid2D.linePoints x1 y1 x2 y2) = Some (x2, y2).
Proof.
  unfold Grid2D.in_rect. cbn [fst snd]. intros H1 H2 Hstraight.
  unfold Grid2D.linePoints.
  set (L := Z.max (Z.abs (x1 - x2)) (Z.abs (y1 - y2))).
  assert (HL : 0 ≤ L) by lia.
  split; [|split].
  - apply Forall_fmap, Forall_seqZ. intros i Hi. simpl.
    destruct (slope_cases x1 x2) as [[? Hs]|[[? Hs]|[? Hs]]];
      destruct (slope_cases y1 y2) as [[? Ht]|[[? Ht]|[? Ht]]];
      rewrite Hs, Ht; lia.
  - rewrite seqZ_cons by lia. simpl. do 2 f_equal; lia.
  - rewrite fmap_last, last_seqZ_0 by done. simpl. do 2 f_equal.
    + destruct (slope_cases x1 x2) as [[? Hs]|[[? Hs]|[? Hs]]]; rewrite Hs; lia.
    + destruct (slope_cases y1 y2) as [[? Ht]|[[? Ht]|[? Ht]]]; rewrite Ht; lia.
Qed.

End Grid2DIncrement.

(** X10.  [incrementLine] steps on its end point (x2, y2) exactly when the
    two end points lie on a common row, column or 45-degree diagonal; on any
    other line it never reaches (x2, y2). *)
Theorem Grid2D_linePoints_reach_end (x1 y1 x2 y2 : Z) :
  (x2, y2) ∈ Grid2D.linePoints x1 y1 x2 y2 ↔
  x1 = x2 ∨ y1 = y2 ∨ Z.abs (x1 - x2) = Z.abs (y1 - y2).
Proof.
  unfold Grid2D.linePoints. rewrite list_elem_of_fmap. split.
  - intros (i & Heq & Hi). apply elem_of_seqZ in Hi. injection Heq as Hx Hy.
    destruct (slope_cases x1 x2) as [[? Hs]|[[? Hs]|[? Hs]]];
      destruct (slope_cases y1 y2) as [[? Ht]|[[? Ht]|[? Ht]]];
      rewrite Hs in Hx; rewrite Ht in Hy; lia.
  - intros Hstraight.
    exists (Z.max (Z.abs (x1 - x2)) (Z.abs (y1 - y2))). split.
    + destruct (slope_cases x1 x2) as [[? Hs]|[[? Hs]|[? Hs]]];
        destruct (slope_cases y1 y2) as [[? Ht]|[[? Ht]|[? Ht]]];
        rewrite Hs, Ht; f_equal; lia.
    + apply elem_of_seqZ. lia.
Qed.

Lemma Grid2D_increment_spec_witness :
  let g := Grid2D.constructor 2 3 zero in
  Grid2D.get (Grid2D.increment g 2 1) 2 1 = val (num (0 + 1)).
Proof.
  intros g.
  destruct (Grid2D_increment_spec g 2 1) as (_ & Hnum & _).
  - apply Grid2D_constructor_layout.
  - simpl; lia.
  - simpl; lia.
  - apply Hnum; [unfold two53; lia|reflexivity].
Defined.

Lemma Grid2D_increment_past_right_edge_witness :
  let g := Grid2D.constructor 2 3 zero in
  Grid2D.get (Grid2D.increment g 3 0) 0 1 = plus_plus (Grid2D.get g 0 1).
Proof.
  intros g. apply (Grid2D_increment_past_right_edge g 0).
  - apply Grid2D_constructor_layout.
  - simpl; lia.
  - simpl; lia.
  - simpl; lia.
Defined.

Lemma Grid2D_incrementLine_spec_witness :
  let g := Grid2D.constructor 3 3 zero in
  Grid2D.get (Grid2D.incrementLine g 0 2 2 0) 1 1 =
  if decide ((1, 1) ∈ Grid2D.linePoints 0 2 2 0)
  then plus_plus (Grid2D.get g 1 1)
  else Grid2D.get g 1 1.
Proof.
  intros g. apply (Grid2D_incrementLine_spec g 0 2 2 0).
  - apply Grid2D_constructor_layout.
  - change (Grid2D.linePoints 0 2 2 0) with [(0, 2); (1, 1); (2, 0)].
    repeat (apply Forall_cons; split; [unfold Grid2D.in_rect; simpl; lia|]).
    apply Forall_nil_2.
  - simpl; lia.
  - simpl; lia.
Defined.

Lemma Grid2D_linePoints_straight_witness :
  let g := Grid2D.constructor 3 3 zero in
  Forall (Grid2D.in_rect g) (Grid2D.linePoints 0 2 2 0) ∧
  head (Grid2D.linePoints 0 2 2 0) = Some (0, 2) ∧
  last (Grid2D.linePoints 0 2 2 0) = Some (2, 0).
Proof.
  intros g. apply (Grid2D_linePoints_straight g 0 2 2 0).
  - unfold Grid2D.in_rect; simpl; lia.
  - unfold Grid2D.in_rect; simpl; lia.
  - right; right. reflexivity.
Defined.

(** ** Grid2D: what the searches return *)

Section Grid2DFindFirst.
Context {T : Type}.
Implicit Types (g : Grid2D.t T) (p : jsval T → bool) (a : jsarray T).

(** X11.  [findAll] returns the matching cells of the store in storage
    order: mapped back to store indices, its result is the increasing list
    of the indices below [size] whose cell satisfies the predicate.  It is
    empty exactly when no such index exists. *)
Theorem Grid2D_findAll_storage_order g p :
  (fun pt : Point => pt.1 + pt.2 * Grid2D.offset g) <$> Grid2D.findAll g p =
    filter (fun idx => p (Arr.get (Grid2D.data g) idx) = true)
           (seqZ 0 (Grid2D.size g)) ∧
  (Grid2D.findAll g p = [] ↔
   ∀ idx, 0 ≤ idx < Grid2D.size g → p (Arr.get (Grid2D.data g) idx) = false).
Proof.
  rewrite Grid2D_findAll_fmap. split.
  - rewrite <- list_fmap_compose. rewrite <- (list_fmap_id (filter _ _)) at 2.
    apply list_fmap_ext. intros _ idx _. simpl. lia.
  - split.
    + intros Hnil%fmap_nil_inv idx Hidx.
      destruct (p (Arr.get (Grid2D.data g) idx)) eqn:Hp; [|done].
      exfalso. eapply (filter_nil_not_elem_of _ _ idx Hnil); [done|].
      apply elem_of_seqZ. lia.
    + intros Hnone.
      assert (Hnil : filter (fun idx => p (Arr.get (Grid2D.data g) idx) = true)
                            (seqZ 0 (Grid2D.size g)) = []).
      { apply elem_of_nil_inv. intros idx Hin.
        apply list_elem_of_filter in Hin as [Hp Hin]. apply elem_of_seqZ in Hin.
        rewrite Hnone in Hp by lia. done. }
      by rewrite Hnil.
Qed.

(** X12.  When [findAll] finds anything, [find] returns its first entry. *)
Theorem Grid2D_find_head_findAll g p (pt : Point) (rest : list Point) :
  Grid2D.layout g →
  Grid2D.findAll g p = pt :: rest → Grid2D.find g p = pt.
Proof.
  intros (_ & _ & Hlen). rewrite Grid2D_findAll_fmap. intros Hall.
  destruct (filter _ _) as [|idx idxs] eqn:Hf; [done|].
  injection Hall as <- _.
  assert (Hhead : head (filter (fun idx => p (Arr.get (Grid2D.data g) idx) = true)
                               (seqZ 0 (Grid2D.size g))) = Some idx)
    by (by rewrite Hf).
  apply head_filter_Some in Hhead as (l1 & l2 & Hsplit & Hnone).
  assert (Hin : idx ∈ filter (fun idx => p (Arr.get (Grid2D.data g) idx) = true)
                             (seqZ 0 (Grid2D.size g)))
    by (rewrite Hf; apply list_elem_of_here).
  apply list_elem_of_filter in Hin as [Hp Hin]. apply elem_of_seqZ in Hin.
  assert (Hidx : idx = Z.of_nat (length l1)).
  { assert (Hl : seqZ 0 (Grid2D.size g) !! length l1 = Some idx).
    { rewrite Hsplit. by rewrite list_lookup_middle. }
    apply lookup_seqZ in Hl. lia. }
  unfold Arr.length in Hlen.
  destruct (lookup_lt_is_Some_2 (elems (Grid2D.data g)) (length l1)) as [s Hs];
    [lia|].
  unfold Grid2D.find, Arr.findIndex.
  rewrite (findIndex_from_first p _ 0 (length l1) s); [by rewrite Z.add_0_l, <- Hidx|done|..].
  - rewrite <- (Arr_get_elems _ _ _ Hs). by rewrite <- Hidx.
  - intros m s' Hm Hs'. rewrite <- (Arr_get_elems _ _ _ Hs').
    assert (Hlm : l1 !! m = Some (Z.of_nat m)).
    { assert (Hl : seqZ 0 (Grid2D.size g) !! m = Some (Z.of_nat m)).
      { rewrite lookup_seqZ_lt by lia. f_equal. }
      rewrite Hsplit, lookup_app_l in Hl by done. done. }
    apply list_elem_of_lookup_2 in Hlm.
    apply (proj1 (Forall_forall _ _) Hnone) in Hlm.
    by destruct (p (Arr.get (Grid2D.data g) (Z.of_nat m))).
Qed.

(** X13.  When some element of the store satisfies the predicate, [find]
    returns the coordinates, within the stride-by-stride square, of the first
    such element in storage order. *)
Theorem Grid2D_find_match g p :
  0 < Grid2D.offset g →
  (∃ s, s ∈ elems (Grid2D.data g) ∧ p (slot_val s) = true) →
  ∃ x y, Grid2D.find g p = (x, y) ∧
         0 ≤ x < Grid2D.offset g ∧ 0 ≤ y ∧
         p (Arr.get (Grid2D.data g) (x + y * Grid2D.offset g)) = true ∧
         ∀ idx, 0 ≤ idx < x + y * Grid2D.offset g →
                p (Arr.get (Grid2D.data g) idx) = false.
Proof.
  intros Ho Hex.
  destruct (first_match_exists p _ Hex) as (n & s & Hn & Hp & Hbefore).
  destruct (Grid2D_find_at g p n s Ho Hn Hp Hbefore)
    as (x & y & Hfind & Hx & Hy & _ & Hpxy & Hfirst).
  exists x, y. done.
Qed.

End Grid2DFindFirst.

Section Grid2DFindValue.
Context {T : Type} `{EqDecision T}.
Implicit Types (g : Grid2D.t T) (value : jsval T).

(** X14.  When an in-range cell (x0, y0) holds the value, [findValue]
    returns coordinates of the stride-by-stride square that address a store
    cell holding the value, and no cell after (x0, y0) in storage order. *)
Theorem Grid2D_findValue_stored g value (x0 y0 : Z) :
  Grid2D.layout g →
  0 ≤ x0 < Grid2D.width g → 0 ≤ y0 < Grid2D.height g →
  Grid2D.get g x0 y0 = value →
  ∃ x y, Grid2D.findValue g value = (x, y) ∧
         0 ≤ x < Grid2D.offset g ∧ 0 ≤ y ∧
         Arr.get (Grid2D.data g) (x + y * Grid2D.offset g) = value ∧
         x + y * Grid2D.offset g ≤ x0 + y0 * Grid2D.offset g.
Proof.
  intros Hlay Hx0 Hy0 Hget.
  pose proof (Grid2D_index_in_store g x0 y0 Hlay Hx0 Hy0) as Hi0.
  destruct Hlay as (Ho & _).
  rewrite Grid2D_get_in in Hget by done.
  set (i0 := x0 + y0 * Grid2D.offset g) in *.
  set (p := fun v : jsval T => bool_decide (v = value)).
  unfold Arr.length in Hi0.
  destruct (lookup_lt_is_Some_2 (elems (Grid2D.data g)) (Z.to_nat i0)) as [s0 Hs0];
    [lia|].
  assert (Hp0 : p (slot_val s0) = true).
  { unfold p. apply bool_decide_eq_true.
    rewrite <- (Arr_get_elems _ _ _ Hs0). by rewrite Z2Nat.id by lia. }
  destruct (first_match_exists p (elems (Grid2D.data g)))
    as (n & s & Hn & Hp & Hbefore).
  { exists s0. split; [by eapply list_elem_of_lookup_2|done]. }
  assert (Hle : (n ≤ Z.to_nat i0)%nat).
  { destruct (decide (n ≤ Z.to_nat i0)%nat) as [|Hgt]; [done|].
    rewrite (Hbefore (Z.to_nat i0) s0) in Hp0; [done|lia|done]. }
  destruct (Grid2D_find_at g p n s ltac:(lia) Hn Hp Hbefore)
    as (x & y & Hfind & Hx & Hy & Hidx & Hpxy & _).
  exists x, y. split; [exact Hfind|]. split; [done|]. split; [done|]. split.
  - by apply bool_decide_eq_true in Hpxy.
  - lia.
Qed.

End Grid2DFindValue.

Section CountFresh.
Context {T : Type}.

Lemma filter_slots_replicate (p : jsval T → bool) (n : nat) (v : jsval T) :
  Arr.filter_slots p (replicate n (elem v)) = if p v then replicate n v else [].
Proof.
  induction n as [|n IH]; simpl; [by destruct (p v)|].
  rewrite IH. by destruct (p v).
Qed.

(** X15.  On a freshly constructed grid [count] sees every cell of the
    backing store: it returns max(height, width) squared when the fill value
    satisfies the predicate, and 0 otherwise. *)
Theorem Grid2D_count_fresh (h w : Z) (v : jsval T) (p : jsval T → bool) :
  Grid2D.count (Grid2D.constructor h w v) p =
  if p v then Z.max h w * Z.max h w else 0.
Proof.
  unfold Grid2D.count, Grid2D.filter, Arr.filter, Grid2D.constructor, Arr.new_fill.
  simpl. rewrite filter_slots_replicate.
  destruct (p v); [|done]. rewrite length_replicate. nia.
Qed.

End CountFresh.

Lemma Grid2D_find_head_findAll_witness :
  Grid2D.find padded_grid is_zero = (0, 1).
Proof.
  apply (Grid2D_find_head_findAll padded_grid is_zero (0, 1) [(1, 1)]).
  - unfold padded_grid. do 2 apply Grid2D_set_layout. apply Grid2D_constructor_layout.
  - reflexivity.
Defined.

Lemma Grid2D_find_match_witness :
  ∃ x y, Grid2D.find padded_grid is_zero = (x, y) ∧
         0 ≤ x < Grid2D.offset padded_grid ∧ 0 ≤ y ∧
         is_zero (Arr.get (Grid2D.data padded_grid)
                          (x + y * Grid2D.offset padded_grid)) = true ∧
         ∀ idx, 0 ≤ idx < x + y * Grid2D.offset padded_grid →
                is_zero (Arr.get (Grid2D.data padded_grid) idx) = false.
Proof.
  apply (Grid2D_find_match padded_grid is_zero).
  - reflexivity.
  - exists (elem (val 0)). split; [|reflexivity].
    do 2 apply list_elem_of_further. apply list_elem_of_here.
Defined.

Lemma Grid2D_findValue_stored_witness :
  ∃ x y, Grid2D.findValue padded_grid (val 1) = (x, y) ∧
         0 ≤ x < Grid2D.offset padded_grid ∧ 0 ≤ y ∧
         Arr.get (Grid2D.data padded_grid) (x + y * Grid2D.offset padded_grid) = val 1 ∧
         x + y * Grid2D.offset padded_grid ≤ 1 + 0 * Grid2D.offset padded_grid.
Proof.
  apply (Grid2D_findValue_stored padded_grid (val 1) 1 0).
  - unfold padded_grid. do 2 apply Grid2D_set_layout. apply Grid2D_constructor_layout.
  - simpl; lia.
  - simpl; lia.
  - reflexivity.
Defined.

(** ** Grid2D: adjacency is the unit Manhattan distance *)

Section Grid2DNeighbours.
Context {T : Type}.
Implicit Types (g : Grid2D.t T) (x y : Z).

Lemma Grid2D_elem_of_adjacent g x y x' y' :
  0 ≤ x < Grid2D.width g → 0 ≤ y < Grid2D.height g →
  (x', y') ∈ Grid2D.adjacent g x y ↔
  Grid2D.in_rect g (x', y') ∧ Z.abs (x' - x) + Z.abs (y' - y) = 1.
Proof.
  intros Hx Hy. rewrite Grid2D_adjacent_filter by done.
  rewrite list_elem_of_filter. unfold Grid2D.neighbours, Grid2D.in_rect.
  rewrite !elem_of_cons, elem_of_nil. cbn [fst snd]. split.
  - intros [Hin [Heq|[Heq|[Heq|[Heq|[]]]]]]; injection Heq as -> ->; lia.
  - intros [Hin Hd]. split; [done|].
    destruct (decide (x' = x - 1)) as [->|]; [left; f_equal; lia|].
    destruct (decide (x' = x + 1)) as [->|]; [right; left; f_equal; lia|].
    destruct (decide (y' = y - 1)) as [->|]; [right; right; left; f_equal; lia|].
    right; right; right; left. f_equal; lia.
Qed.

(** X16.  For an in-range cell, [adjacent] returns exactly the in-range
    cells at Manhattan distance 1; between in-range cells adjacency is
    symmetric. *)
Theorem Grid2D_adjacent_manhattan g x y x' y' :
  0 ≤ x < Grid2D.width g → 0 ≤ y < Grid2D.height g →
  ((x', y') ∈ Grid2D.adjacent g x y ↔
   Grid2D.in_rect g (x', y') ∧ Z.abs (x' - x) + Z.abs (y' - y) = 1) ∧
  ((x', y') ∈ Grid2D.adjacent g x y →
   (x, y) ∈ Grid2D.adjacent g x' y').
Proof.
  intros Hx Hy. split; [by apply Grid2D_elem_of_adjacent|].
  intros Hin. apply Grid2D_elem_of_adjacent in Hin as [[Hx' Hy'] Hd]; [|done..].
  cbn [fst snd] in *.
  apply Grid2D_elem_of_adjacent; [done..|].
  unfold Grid2D.in_rect. cbn [fst snd]. lia.
Qed.

Lemma join_fmap_fmap {A B : Type} (f : A → B) (ls : list (list A)) :
  mjoin ((fun l => f <$> l) <$> ls) = f <$> mjoin ls.
Proof.
  induction ls as [|l ls IH]; [done|].
  change (((f <$> l) ++ mjoin ((fun l => f <$> l) <$> ls)) = f <$> (l ++ mjoin ls)).
  by rewrite fmap_app, IH.
Qed.

Lemma Grid2D_horizontals_cells g :
  mjoin (Grid2D.horizontals g) =
  (fun pt : Point => Grid2D.get g pt.1 pt.2) <$> Grid2D.cells g.
Proof.
  unfold Grid2D.horizontals, Grid2D.cells.
  rewrite <- join_fmap_bind, <- join_fmap_fmap. f_equal.
  rewrite <- list_fmap_compose. apply list_fmap_ext. intros _ y _. simpl.
  by rewrite <- list_fmap_compose.
Qed.

(** X17.  For positive dimensions the values of [diagonals()], joined, are a
    rearrangement of the values of [horizontals()], joined: every cell of the
    rectangle is read exactly once. *)
Theorem Grid2D_diagonals_values g :
  0 < Grid2D.width g → 0 < Grid2D.height g →
  mjoin (Grid2D.diagonals g) ≡ₚ mjoin (Grid2D.horizontals g).
Proof.
  intros Hw Hh.
  rewrite Grid2D_diagonals_points, join_fmap_fmap, Grid2D_horizontals_cells.
  apply fmap_Permutation. by apply Grid2D_diagonals_cover.
Qed.

(** X18.  On a square grid the values of [antiDiagonals()], joined, are a
    rearrangement of the values of [horizontals()], joined. *)
Theorem Grid2D_antiDiagonals_values_square g :
  0 < Grid2D.width g → Grid2D.width g = Grid2D.height g →
  mjoin (Grid2D.antiDiagonals g) ≡ₚ mjoin (Grid2D.horizontals g).
Proof.
  intros Hw Hsq.
  rewrite Grid2D_antiDiagonals_points, join_fmap_fmap, Grid2D_horizontals_cells.
  apply fmap_Permutation. by apply Grid2D_antiDiagonals_cover_square.
Qed.

End Grid2DNeighbours.

Lemma Grid2D_adjacent_manhattan_witness :
  let g := Grid2D.constructor 3 3 zero in
  ((1, 0) ∈ Grid2D.adjacent g 1 1 ↔
   Grid2D.in_rect g (1, 0) ∧ Z.abs (1 - 1) + Z.abs (0 - 1) = 1) ∧
  ((1, 0) ∈ Grid2D.adjacent g 1 1 → (1, 1) ∈ Grid2D.adjacent g 1 0).
Proof.
  intros g. apply (Grid2D_adjacent_manhattan g 1 1 1 0); simpl; lia.
Defined.

Lemma Grid2D_diagonals_values_witness :
  let g := Grid2D.constructor 3 2 zero in
  mjoin (Grid2D.diagonals g) ≡ₚ mjoin (Grid2D.horizontals g).
Proof.
  intros g. apply (Grid2D_diagonals_values g); simpl; lia.
Defined.

Lemma Grid2D_antiDiagonals_values_square_witness :
  let g := Grid2D.constructor 3 3 zero in
  mjoin (Grid2D.antiDiagonals g) ≡ₚ mjoin (Grid2D.horizontals g).
Proof.
  intros g. apply (Grid2D_antiDiagonals_values_square g); simpl; [lia|reflexivity].
Defined.

(** ** Grid3D: reading after writing, and setCube *)

Section Grid3DWrites.
Implicit Types (g : Grid3D.t) (x y z : Z) (v : jsval number).

Lemma Grid3D_get_set_address g x y z x' y' z' v :
  Grid3D.layout g →
  Grid3D.get (Grid3D.set g x y z v) x' y' z' =
  if decide (Grid3D.address g x' y' z' = Grid3D.address g x y z)
  then v else Grid3D.get g x' y' z'.
Proof.
  intros Hlay.
  rewrite Grid3D_get_address by by apply Grid3D_set_layout.
  rewrite Grid3D_set_address by done.
  change (Grid3D.address (Grid3D.with_data g ?d)) with (Grid3D.address g).
  simpl. case_decide as Heq.
  - rewrite Heq. apply Arr_get_set_eq.
  - rewrite Arr_get_set_ne by done. by rewrite Grid3D_get_address.
Qed.

(** X19.  In a Grid3D whose width equals its height, every in-range
    coordinate has an address inside the store, [get] after [set] at an
    in-range coordinate returns the value written, and [get] at every other
    in-range coordinate is unchanged. *)
Theorem Grid3D_get_after_set_square g x y z v :
  Grid3D.layout g → Grid3D.width g = Grid3D.height g →
  Grid3D.in_box g x y z →
  0 ≤ Grid3D.address g x y z <
    Grid3D.height g * Grid3D.width g * Grid3D.depth g ∧
  Grid3D.get (Grid3D.set g x y z v) x y z = v ∧
  ∀ x' y' z', Grid3D.in_box g x' y' z' → (x', y', z') ≠ (x, y, z) →
              Grid3D.get (Grid3D.set g x y z v) x' y' z' = Grid3D.get g x' y' z'.
Proof.
  intros Hlay Hsq (Hx & Hy & Hz). split; [|split].
  - unfold Grid3D.address. rewrite Hsq in *.
    assert (x ≤ Grid3D.height g - 1) by lia.
    assert (y ≤ Grid3D.height g - 1) by lia.
    assert (z ≤ Grid3D.depth g - 1) by lia.
    assert (0 ≤ Grid3D.height g * Grid3D.height g) by nia.
    nia.
  - rewrite Grid3D_get_set_address by done. by rewrite decide_True.
  - intros x' y' z' (Hx' & Hy' & Hz') Hne.
    rewrite Grid3D_get_set_address by done.
    rewrite decide_False; [done|]. intros Heq. apply Hne.
    unfold Grid3D.address in Heq. rewrite Hsq in *.
    set (h := Grid3D.height g) in *.
    assert (z' = z) by nia. subst z'.
    assert (y' = y) by nia. subst y'.
    assert (x' = x) by lia. by subst x'.
Qed.


End Grid3DWrites.

Lemma Grid3D_get_after_set_square_witness :
  let g := Grid3D.constructor 2 2 2 (num 0) in
  Grid3D.get (Grid3D.set g 1 0 1 one) 1 0 1 = one.
Proof.
  intros g. apply (Grid3D_get_after_set_square g 1 0 1 one).
  - apply Grid3D_constructor_layout.
  - reflexivity.
  - unfold Grid3D.in_box; simpl; lia.
Defined.


Section Grid3DCube.
Implicit Types (g : Grid3D.t) (x y z : Z) (v : jsval number).

Lemma Grid3D_elem_of_cubePoints (xs ys zs : list Z) x y z :
  (x, y, z) ∈ Grid3D.cubePoints xs ys zs ↔ x ∈ xs ∧ y ∈ ys ∧ z ∈ zs.
Proof.
  unfold Grid3D.cubePoints. rewrite list_elem_of_bind. split.
  - intros (x' & Hin & Hx). apply list_elem_of_bind in Hin as (y' & Hin & Hy).
    apply list_elem_of_fmap in Hin as (z' & Heq & Hz).
    injection Heq as -> -> ->. done.
  - intros (Hx & Hy & Hz). exists x. split; [|done].
    apply list_elem_of_bind. exists y. split; [|done].
    apply list_elem_of_fmap. by exists z.
Qed.

Lemma Grid3D_setCube_points g (xs ys zs : list Z) v :
  foldl (fun g x =>
           foldl (fun g y => foldl (fun g z => Grid3D.set g x y z v) g zs) g ys)
        g xs =
  foldl (fun g c => Grid3D.set g c.1.1 c.1.2 c.2 v) g (Grid3D.cubePoints xs ys zs).
Proof.
  unfold Grid3D.cubePoints. revert g.
  induction xs as [|x xs IHx]; intros g; [done|].
  rewrite bind_cons, foldl_app. cbn [foldl]. rewrite IHx. f_equal.
  clear IHx. revert g. induction ys as [|y ys IHy]; intros g; [done|].
  rewrite bind_cons, foldl_app. cbn [foldl]. rewrite IHy. f_equal.
  by rewrite foldl_fmap.
Qed.

Lemma Grid3D_foldl_set_layout (cs : list (Z * Z * Z)) g v :
  Grid3D.layout g →
  Grid3D.layout (foldl (fun g c => Grid3D.set g c.1.1 c.1.2 c.2 v) g cs).
Proof.
  revert g. induction cs as [|c cs IH]; intros g Hlay; [done|].
  cbn [foldl]. by apply IH, Grid3D_set_layout.
Qed.

Lemma Grid3D_get_foldl_set (cs : list (Z * Z * Z)) g v x y z :
  Grid3D.layout g →
  Grid3D.get (foldl (fun g c => Grid3D.set g c.1.1 c.1.2 c.2 v) g cs) x y z =
  if decide (Grid3D.address g x y z ∈
               (fun c : Z * Z * Z => Grid3D.address g c.1.1 c.1.2 c.2) <$> cs)
  then v else Grid3D.get g x y z.
Proof.
  revert g. induction cs as [|[[cx cy] cz] cs IH]; intros g Hlay; cbn [foldl].
  - rewrite decide_False; [done|]. intros Hin. inversion Hin.
  - cbn [fst snd]. rewrite IH by (by apply Grid3D_set_layout).
    change (Grid3D.address (Grid3D.set g cx cy cz v)) with (Grid3D.address g).
    rewrite fmap_cons. cbn [fst snd].
    destruct (decide (Grid3D.address g x y z ∈ _ <$> cs)) as [Hin|Hnin].
    + rewrite decide_True; [done|by apply list_elem_of_further].
    + rewrite Grid3D_get_set_address by done.
      destruct (decide (Grid3D.address g x y z = Grid3D.address g cx cy cz))
        as [Heq|Hne].
      * rewrite decide_True; [done|]. rewrite Heq. apply list_elem_of_here.
      * rewrite decide_False; [done|]. intros [?|?]%elem_of_cons; done.
Qed.

(** X21.  After [setCube(x1, y1, z1, x2, y2, z2, value)] every coordinate of
    the cube, bounds included, reads [value]; a coordinate whose address is
    the address of no coordinate of the cube reads what it read before; and
    when a lower bound exceeds its upper bound the grid is unchanged. *)
Theorem Grid3D_setCube_spec g (x1 y1 z1 x2 y2 z2 : Z) v :
  Grid3D.layout g →
  (∀ x y z, x1 ≤ x ≤ x2 → y1 ≤ y ≤ y2 → z1 ≤ z ≤ z2 →
            Grid3D.get (Grid3D.setCube g x1 y1 z1 x2 y2 z2 v) x y z = v) ∧
  (∀ x y z,
     (∀ x' y' z', x1 ≤ x' ≤ x2 → y1 ≤ y' ≤ y2 → z1 ≤ z' ≤ z2 →
                  Grid3D.address g x' y' z' ≠ Grid3D.address g x y z) →
     Grid3D.get (Grid3D.setCube g x1 y1 z1 x2 y2 z2 v) x y z = Grid3D.get g x y z) ∧
  (x2 < x1 ∨ y2 < y1 ∨ z2 < z1 →
   Grid3D.setCube g x1 y1 z1 x2 y2 z2 v = g).
Proof.
  intros Hlay. unfold Grid3D.setCube. rewrite Grid3D_setCube_points.
  set (cs := Grid3D.cubePoints _ _ _).
  assert (Hcs : ∀ x y z, (x, y, z) ∈ cs ↔
                         x1 ≤ x ≤ x2 ∧ y1 ≤ y ≤ y2 ∧ z1 ≤ z ≤ z2).
  { intros x y z. unfold cs. rewrite Grid3D_elem_of_cubePoints, !elem_of_seqZ. lia. }
  split; [|split].
  - intros x y z Hx Hy Hz. rewrite Grid3D_get_foldl_set by done.
    rewrite decide_True; [done|].
    apply list_elem_of_fmap. exists (x, y, z). split; [done|]. by apply Hcs.
  - intros x y z Hother. rewrite Grid3D_get_foldl_set by done.
    rewrite decide_False; [done|].
    intros ([[x' y'] z'] & Heq & Hin)%list_elem_of_fmap.
    apply Hcs in Hin as (Hx & Hy & Hz). by apply (Hother x' y' z').
  - intros Hempty. replace cs with (@nil (Z * Z * Z)); [done|].
    symmetry. apply elem_of_nil_inv. intros [[x y] z] Hin.
    apply Hcs in Hin. lia.
Qed.

End Grid3DCube.

Lemma Grid3D_setCube_spec_witness :
  let g := Grid3D.constructor 2 2 2 (num 0) in
  Grid3D.get (Grid3D.setCube g 0 0 0 1 1 1 one) 1 0 1 = one.
Proof.
  intros g.
  destruct (Grid3D_setCube_spec g 0 0 0 1 1 1 one) as (Hin & _).
  - apply Grid3D_constructor_layout.
  - apply Hin; lia.
Defined.

(** ** Freshly constructed grids *)

Section Fresh.
Context {T : Type}.

Lemma Arr_get_new_fill (n i : Z) (v : jsval T) :
  0 ≤ i < n → Arr.get (Arr.new_fill n v) i = v.
Proof.
  intros Hi. unfold Arr.get, Arr.new_fill. cbn [elems props].
  destruct (i <? 0) eqn:E; [apply Z.ltb_lt in E; lia|].
  rewrite lookup_replicate_2 by lia. done.
Qed.

(** X22.  A freshly constructed Grid2D reads its fill value at every
    in-range coordinate. *)
Theorem Grid2D_constructor_get (h w : Z) (v : jsval T) (x y : Z) :
  0 ≤ x < w → 0 ≤ y < h →
  Grid2D.get (Grid2D.constructor h w v) x y = v.
Proof.
  intros Hx Hy. rewrite Grid2D_get_in by done.
  unfold Grid2D.constructor. cbn [Grid2D.data Grid2D.offset].
  apply Arr_get_new_fill.
  assert (x ≤ Z.max h w - 1) by lia. assert (y ≤ Z.max h w - 1) by lia. nia.
Qed.

End Fresh.

(** X23.  On a freshly constructed Grid3D with non-negative dimensions
    [count] returns height * width * depth when the fill value satisfies the
    predicate, and 0 otherwise. *)
Theorem Grid3D_count_fresh (h w d : Z) (fill : number) (p : jsval number → bool) :
  0 ≤ h → 0 ≤ w → 0 ≤ d →
  Grid3D.count (Grid3D.constructor h w d fill) p =
  if p (val fill) then h * w * d else 0.
Proof.
  intros Hh Hw Hd.
  unfold Grid3D.count, Grid3D.filter, Arr.filter, Grid3D.constructor, Arr.new_fill.
  cbn [Grid3D.data elems]. rewrite filter_slots_replicate.
  destruct (p (val fill)); [|done]. rewrite length_replicate.
  assert (0 ≤ h * w) by nia. assert (0 ≤ h * w * d) by nia. lia.
Qed.

Lemma Grid2D_constructor_get_witness :
  Grid2D.get (Grid2D.constructor 2 3 one) 2 1 = one.
Proof. apply (Grid2D_constructor_get 2 3 one 2 1); lia. Defined.

Lemma Grid3D_count_fresh_witness :
  Grid3D.count (Grid3D.constructor 2 3 1 (num 0)) holds_zero =
  if holds_zero (val (num 0)) then 2 * 3 * 1 else 0.
Proof. apply (Grid3D_count_fresh 2 3 1 (num 0) holds_zero); lia. Defined.
